(** * django-exportable-admin: the streaming CSV writer and the export view

    A shallow embedding of [django_exportable_admin/utils.py] ([Echo],
    [UnicodeWriter]) and of the export path of
    [django_exportable_admin/admin.py] ([ExportableAdmin.export_changelist_view]).

    The Python objects the code drives ([io.StringIO], [csv.DictWriter] with
    the [excel] dialect, the incremental encoder of [codecs], Django's
    [smart_text]) are embedded next to it, each as the state it holds and the
    methods the code calls, with their Python 3 behaviour: the writer of
    [csv] writes [str] into the [io.StringIO] queue, which Python 2 refuses. *)

From Stdlib Require Import ZArith NArith Ascii String DecimalString Strings.Byte.
From stdpp Require Import base option list numbers strings gmap.

Open Scope N_scope.
Open Scope list_scope.

(** ** Text and bytes *)

(** A Python 3 [str] is a sequence of code points; [len] counts them. *)
Definition char := N.
Definition text := list char.
Definition bytes := list byte.

Definition ustr (s : string) : text :=
  map N_of_ascii (list_ascii_of_string s).

Definition NUL : char := 0.
Definition CR : char := 13.
Definition LF : char := 10.

(** ** Exceptions *)

Inductive exn :=
| TypeError
| ValueError
| KeyError
| UnicodeEncodeError
| OtherError (name : string).

#[global] Instance exn_eq_dec : EqDecision exn.
Proof. solve_decision. Defined.

Inductive result (A : Type) :=
| Ok (a : A)
| Raise (e : exn).
Arguments Ok {A} a.
Arguments Raise {A} e.

Definition bind {A B} (m : result A) (k : A -> result B) : result B :=
  match m with
  | Ok a => k a
  | Raise e => Raise e
  end.

Notation "'do' x <- m ; k" := (bind m (fun x => k))
  (at level 10, x name, m at level 100, k at level 200).
Notation "'do' ' p <- m ; k" := (bind m (fun x => match x with p => k end))
  (at level 10, p pattern, m at level 100, k at level 200).

(** ** Field values and the framework's text conversion *)

(** What [lookup_field] hands back for a column: nothing, a boolean, a
    number or text. *)
Inductive value :=
| VNone
| VBool (b : bool)
| VInt (z : Z)
| VText (s : text).

(** Python's [str] on the non-text values. *)
Definition py_str (v : value) : text :=
  match v with
  | VNone => ustr "None"
  | VBool true => ustr "True"
  | VBool false => ustr "False"
  | VInt z => ustr (NilZero.string_of_int (Z.to_int z))
  | VText s => s
  end.

(** [isinstance(value, six.string_types)] *)
Definition is_string (v : value) : bool :=
  match v with VText _ => true | _ => false end.

(** [django.utils.encoding.smart_text]: text is returned as it is, every
    other object goes through [str]. *)
Definition smart_text (v : value) : text :=
  if is_string v then match v with VText s => s | _ => [] end
  else py_str v.

(** ** [io.StringIO] *)

Module StringIO.

(** The buffer and the stream position, which [write] advances and
    [truncate] leaves alone. *)
Record t := mk { buf : text; pos : nat }.

Definition new : t := mk [] 0%nat.

(** [write(s)]: an empty string is ignored; otherwise a position past the
    end is first filled with NUL up to it, then [s] overwrites from the
    position on. *)
Definition write (q : t) (s : text) : t :=
  match s with
  | [] => q
  | _ =>
      let padded := buf q ++ repeat NUL (pos q - length (buf q)) in
      mk (take (pos q) padded ++ s ++ drop (pos q + length s) padded)
         (pos q + length s)
  end.

Definition getvalue (q : t) : text := buf q.

(** [truncate(size)] cuts the buffer and does not move the position. *)
Definition truncate (q : t) (size : nat) : t :=
  mk (take size (buf q)) (pos q).

End StringIO.

(** ** [csv]: the [excel] dialect with the delimiter overridden *)

Module csv.

Definition quotechar : char := 34.
Definition lineterminator : text := [CR; LF].

(** The characters that force a field into quotes under [QUOTE_MINIMAL]. *)
Definition special (delimiter c : char) : bool :=
  (c =? delimiter) || (c =? quotechar) || existsb (N.eqb c) lineterminator.

Definition quoted (delimiter : char) (field : text) : bool :=
  existsb (special delimiter) field.

(** [doublequote]: every quote character of the field is written twice. *)
Definition field_data (field : text) : text :=
  flat_map (fun c => if c =? quotechar then [quotechar; c] else [c]) field.

Definition join_append (delimiter : char) (field : text) : text :=
  if quoted delimiter field
  then quotechar :: field_data field ++ [quotechar]
  else field_data field.

Fixpoint join (delimiter : char) (fields : list text) : text :=
  match fields with
  | [] => []
  | [f] => join_append delimiter f
  | f :: rest => join_append delimiter f ++ delimiter :: join delimiter rest
  end.

(** The line [writer.writerow] passes to the file's [write] in one call. A
    record that came out empty although it has a field (a single empty
    field) is written as a pair of quotes. *)
Definition record (delimiter : char) (fields : list text) : text :=
  let rec := join delimiter fields in
  (match fields, rec with
   | _ :: _, [] => [quotechar; quotechar]
   | _, _ => rec
   end) ++ lineterminator.

(** [csv.DictWriter(f, fieldnames, restval='', extrasaction='raise')]. The
    file [f] it writes to is an object it shares with its owner: the state
    of the file is passed to the methods and handed back. *)
Record DictWriter := mkDictWriter {
  fieldnames : list text;
  delimiter : char
}.

(** The underlying [csv.writer] refuses a delimiter that is not a
    one-character string. *)
Definition new (fieldnames : list text) (delimiter : text) : result DictWriter :=
  match delimiter with
  | [d] => Ok (mkDictWriter fieldnames d)
  | _ => Raise TypeError
  end.

(** [_dict_to_list]: keys outside [fieldnames] raise, absent keys give
    [restval]. *)
Definition _dict_to_list (w : DictWriter) (rowdict : gmap text text)
  : result (list text) :=
  if decide (dom rowdict ⊆ list_to_set (fieldnames w))
  then Ok (map (fun key => default [] (rowdict !! key)) (fieldnames w))
  else Raise ValueError.

Definition writerow (w : DictWriter) (f : StringIO.t) (rowdict : gmap text text)
  : result StringIO.t :=
  do fields <- _dict_to_list w rowdict;
  Ok (StringIO.write f (record (delimiter w) fields)).

(** [header = dict(zip(fieldnames, fieldnames)); writerow(header)] *)
Definition writeheader (w : DictWriter) (f : StringIO.t) : result StringIO.t :=
  writerow w f (list_to_map (zip (fieldnames w) (fieldnames w))).

End csv.

(** ** The incremental encoder of [codecs] *)

(** [codecs.getincrementalencoder(encoding)()]: an encoder object keeps a
    state between calls of [encode]; a character the encoding cannot
    represent raises. *)
Record Codec := mkCodec {
  enc_state : Type;
  enc_init : enc_state;
  enc_encode : enc_state -> text -> result (bytes * enc_state)
}.

Module utf_8.

Definition byte_of (n : N) : byte := default x00 (Byte.of_N n).

(** A continuation byte carrying six bits of [c] taken [shift] bits up. *)
Definition cont (c : char) (shift : N) : byte :=
  byte_of (N.lor 128 (N.land (N.shiftr c shift) 63)).

Definition encode_char (c : char) : result bytes :=
  if c <? 128 then Ok [byte_of c]
  else if c <? 2048 then
    Ok [byte_of (N.lor 192 (N.shiftr c 6)); cont c 0]
  else if c <? 65536 then
    if (55296 <=? c) && (c <=? 57343) then Raise UnicodeEncodeError
    else Ok [byte_of (N.lor 224 (N.shiftr c 12)); cont c 6; cont c 0]
  else if c <? 1114112 then
    Ok [byte_of (N.lor 240 (N.shiftr c 18)); cont c 12; cont c 6; cont c 0]
  else Raise UnicodeEncodeError.

Fixpoint encode (s : text) : result bytes :=
  match s with
  | [] => Ok []
  | c :: rest =>
      do b <- encode_char c;
      do bs <- encode rest;
      Ok (b ++ bs)
  end.

(** The UTF-8 encoder carries nothing from one call to the next. *)
Definition codec : Codec :=
  mkCodec unit tt (fun st s => do b <- encode s; Ok (b, st)).

End utf_8.

(** ** Sinks *)

(** The objects a [write] method gives back. *)
Inductive object :=
| PyNone
| PyInt (n : Z)
| PyBytes (b : bytes).

(** The file-like object handed to [UnicodeWriter]: only [write] is used,
    and what it returns is up to the object. *)
Record Stream := mkStream {
  stream_state : Type;
  write : stream_state -> bytes -> stream_state * object
}.

(** [Echo.write] returns the value instead of storing it. *)
Definition Echo : Stream :=
  mkStream unit (fun self value => (self, PyBytes value)).

(** A binary file object such as [io.BytesIO]: [write] appends the chunk
    and returns the number of bytes written. The state lists the chunks
    received, oldest first. *)
Definition BytesIO : Stream :=
  mkStream (list bytes)
    (fun self value => (self ++ [value], PyInt (Z.of_nat (length value)))).

(** ** Generators *)

(** What [next] on a generator object does: hand out a value and suspend,
    finish, or let an exception of the body out. *)
Inductive step (A G : Type) :=
| Yield (a : A) (g : G)
| StopIteration
| Raised (e : exn).
Arguments Yield {A G} a g.
Arguments StopIteration {A G}.
Arguments Raised {A G} e.

(** How far a consumer got that called [next] a number of times. *)
Inductive status (G : Type) :=
| Suspended (g : G)
| Exhausted
| Failed (e : exn).
Arguments Suspended {G} g.
Arguments Exhausted {G}.
Arguments Failed {G} e.

Section Consumer.
Context {A G : Type} (next : G -> step A G).

(** Call [next] up to [n] times, collecting what was yielded. *)
Fixpoint pull (n : nat) (g : G) : list A * status G :=
  match n with
  | O => ([], Suspended g)
  | S n' =>
      match next g with
      | Yield a g' => let '(rest, st) := pull n' g' in (a :: rest, st)
      | StopIteration => ([], Exhausted)
      | Raised e => ([], Failed e)
      end
  end.
End Consumer.

(** ** [UnicodeWriter] *)

Module UnicodeWriter.
Section UnicodeWriter.
Context (codec : Codec) (f : Stream).

Record t := mk {
  queue : StringIO.t;
  writer : csv.DictWriter;
  stream : stream_state f;
  encoder : enc_state codec
}.

(** [UnicodeWriter(f, fieldnames=..., delimiter=...)], with [codec] for
    the encoding. *)
Definition __init__ (f0 : stream_state f) (fieldnames : list text)
    (delimiter : text) : result t :=
  let queue := StringIO.new in
  do writer <- csv.new fieldnames delimiter;
  let stream := f0 in
  let encoder := enc_init codec in
  do queue <- csv.writeheader writer queue;
  Ok (mk queue writer stream encoder).

Definition writerow (self : t) (row : gmap text value)
  : result (object * t) :=
  do queue <- csv.writerow (writer self) (queue self) (smart_text <$> row);
  let data := StringIO.getvalue queue in
  do '(data, encoder) <- enc_encode codec (encoder self) data;
  let '(stream, res) := write f (stream self) data in
  let queue := StringIO.truncate queue 0 in
  Ok (res, mk queue (writer self) stream encoder).

(** The generator object [writerows(rows)] returns: the writer and the
    rows the [for] loop has not reached yet. Creating it runs nothing. *)
Definition generator : Type := t * list (gmap text value).

Definition writerows (self : t) (rows : list (gmap text value)) : generator :=
  (self, rows).

Definition next (g : generator) : step object generator :=
  match g with
  | (_, []) => StopIteration
  | (self, row :: rows) =>
      match writerow self row with
      | Ok (res, self) => Yield res (self, rows)
      | Raise e => Raised e
      end
  end.

End UnicodeWriter.
End UnicodeWriter.

Arguments UnicodeWriter.queue {codec f} _.
Arguments UnicodeWriter.writer {codec f} _.
Arguments UnicodeWriter.stream {codec f} _.
Arguments UnicodeWriter.encoder {codec f} _.
Arguments UnicodeWriter.writerow {codec f} self row.
Arguments UnicodeWriter.writerows {codec f} self rows.
Arguments UnicodeWriter.next {codec f} g.

(** ** [collections.OrderedDict] and [dict] *)

Module OrderedDict.
Section OrderedDict.
Context {K V : Type} `{EqDecision K}.

(** The items in insertion order; a key occurs once. *)
Definition t : Type := list (K * V).

Definition empty : t := [].

(** [d[k] = v]: a key already there keeps its place and takes the new
    value, a new key goes to the end. *)
Fixpoint setitem (d : t) (k : K) (v : V) : t :=
  match d with
  | [] => [(k, v)]
  | (k', v') :: rest =>
      if decide (k' = k) then (k', v) :: rest
      else (k', v') :: setitem rest k v
  end.

(** [d[k]] *)
Fixpoint getitem (d : t) (k : K) : result V :=
  match d with
  | [] => Raise KeyError
  | (k', v') :: rest => if decide (k' = k) then Ok v' else getitem rest k
  end.

Definition keys (d : t) : list K := map fst d.
Definition values (d : t) : list V := map snd d.

End OrderedDict.
End OrderedDict.
Arguments OrderedDict.t K V : clear implicits.

(** ** [ExportableAdmin.export_changelist_view] *)

Module ExportableAdmin.

(** An entry of [list_display]: the name of a field, attribute or method,
    or a callable. *)
Inductive column :=
| Named (name : string)
| Callable (id : positive).

#[global] Instance column_eq_dec : EqDecision column.
Proof. solve_decision. Defined.

Definition action_checkbox : column := Named "action_checkbox".

(** What a call of [lookup_field] does: return the value, raise
    [ObjectDoesNotExist], or raise something else. *)
Inductive lookup :=
| Found (value : value)
| ObjectDoesNotExist
| LookupRaises (e : exn).

(** The change list [cl] of the response of [changelist_view]. *)
Record ChangeList (record : Type) := mkChangeList {
  list_display : list column;
  queryset : list record
}.
Arguments list_display {record} _.
Arguments queryset {record} _.

Section export_changelist_view.
Context {record : Type}.
(** [label_for_field(field_name, cl.model, model_admin=cl.model_admin)] *)
Variable label_for_field : column -> text.
(** [lookup_field(field_name, result, cl.model_admin)] *)
Variable lookup_field : column -> record -> lookup.
(** [django.utils.html.strip_tags] *)
Variable strip_tags : text -> text.

Variable cl : ChangeList record.
Variable extra_context : option (gmap string text).

(** [(extra_context or {}).get('export_delimiter', None)] *)
Definition delimiter : option text :=
  default ∅ extra_context !! "export_delimiter"%string.

(** [str(delimiter)] *)
Definition str_delimiter : text :=
  match delimiter with
  | Some d => d
  | None => ustr "None"
  end.

(** The loop that fills [res_headers]. *)
Fixpoint get_headers (res_headers : OrderedDict.t column text)
    (fields : list column) : OrderedDict.t column text :=
  match fields with
  | [] => res_headers
  | field_name :: fields =>
      if decide (field_name = action_checkbox)
      then get_headers res_headers fields
      else
        let label := label_for_field field_name in
        get_headers (OrderedDict.setitem res_headers field_name label) fields
  end.

Definition res_headers : OrderedDict.t column text :=
  get_headers OrderedDict.empty (list_display cl).

(** The [try] around [lookup_field] and the [strip_tags] after it. *)
Definition get_value (field_name : column) (obj : record) : result value :=
  do value <-
    match lookup_field field_name obj with
    | Found value => Ok value
    | ObjectDoesNotExist => Ok VNone
    | LookupRaises e => Raise e
    end;
  Ok (if is_string value
      then match value with VText s => VText (strip_tags s) | _ => value end
      else value).

(** The inner loop of [generate_response], which fills [row]. *)
Fixpoint get_row (fields : list column) (obj : record)
    (row : gmap text value) : result (gmap text value) :=
  match fields with
  | [] => Ok row
  | field_name :: fields =>
      if decide (field_name = action_checkbox)
      then get_row fields obj row
      else
        do value <- get_value field_name obj;
        do label <- OrderedDict.getitem res_headers field_name;
        get_row fields obj (<[label := value]> row)
  end.

Abbreviation writer := (UnicodeWriter.t utf_8.codec Echo).

(** The generator [generate_response()]: not started, or suspended at
    the [yield] with the writer and the records still to come. *)
Inductive generator :=
| Created
| Running (csv : writer) (results : list record).

(** The [for result in cl.queryset.iterator()] loop up to its next
    [yield]. *)
Definition resume (csv : writer) (results : list record)
  : step object generator :=
  match results with
  | [] => StopIteration
  | obj :: results =>
      match
        (do row <- get_row (list_display cl) obj ∅;
         UnicodeWriter.writerow csv row)
      with
      | Ok (chunk, csv) => Yield chunk (Running csv results)
      | Raise e => Raised e
      end
  end.

Definition next (g : generator) : step object generator :=
  match g with
  | Created =>
      let pseudo_buffer := tt in
      match
        UnicodeWriter.__init__ utf_8.codec Echo pseudo_buffer
          (OrderedDict.values res_headers) str_delimiter
      with
      | Ok csv => resume csv (queryset cl)
      | Raise e => Raised e
      end
  | Running csv results => resume csv results
  end.

(** Calling [generate_response()] makes the generator and runs nothing of
    its body. *)
Definition generate_response : generator := Created.

(** The view returns [StreamingHttpResponse(generate_response(), ...)]:
    the body of the response is the generator, not yet started. *)
Definition export_changelist_view : generator := generate_response.

(** What the client receives when the transport pulls the generator dry:
    the chunks in order, and whether the stream ended or broke. *)
Definition streaming_content : list object * status generator :=
  pull next (S (length (queryset cl))) export_changelist_view.

End export_changelist_view.

(** *** [get_export_buttons] and [get_urls] *)

(** [self.model._meta]: the names the two methods read. Which of
    [module_name] and [model_name] exists depends on the framework's
    version. *)
Record Options := mkOptions {
  app_label : text;
  module_name : option text;
  model_name : option text
}.

(** Reading an attribute that may not be there. *)
Definition getattr (attribute : option text) : result text :=
  match attribute with
  | Some v => Ok v
  | None => Raise (OtherError "AttributeError")
  end.

(** [try: m except AttributeError: handler] *)
Definition except_AttributeError {A} (m handler : result A) : result A :=
  match m with
  | Ok a => Ok a
  | Raise e =>
      if decide (e = OtherError "AttributeError") then handler else Raise e
  end.

(** The views a URL pattern can point to. *)
Inductive view :=
| export_changelist
| inherited_view (id : positive).

(** [url(regex, view, name=..., kwargs=...)] *)
Record url := mkUrl {
  regex : text;
  callback : view;
  name : option text;
  kwargs : gmap string (gmap string text)
}.

Section urls_and_buttons.
(** [str.lower] *)
Variable lower : text -> text.
(** [django.core.urlresolvers.reverse], which raises when no pattern has
    the name *)
Variable reverse : text -> result text.
(** [django.utils.encoding.iri_to_uri] *)
Variable iri_to_uri : text -> text.
(** [self.model._meta], [self.export_formats], and the patterns of
    [super().get_urls()] *)
Variable meta : Options.
Variable export_formats : list (text * text).
Variable super_get_urls : list url.

(** The generator expression [get_export_buttons] returns: the names it
    closed over, the META of the request and the formats still to come. *)
Record buttons := mkButtons {
  buttons_app : text;
  buttons_mod : text;
  buttons_META : gmap string text;
  buttons_formats : list (text * text)
}.

Definition get_export_buttons (META : gmap string text) : result buttons :=
  let app := app_label meta in
  do mod_ <- except_AttributeError (getattr (module_name meta))
                                   (getattr (model_name meta));
  Ok (mkButtons app mod_ META export_formats).

Definition next_button (g : buttons) : step (text * text) buttons :=
  match buttons_formats g with
  | [] => StopIteration
  | (format_name, delimiter) :: formats =>
      let text := ustr "Export as " ++ format_name in
      match
        reverse (ustr "admin:" ++ buttons_app g ++ ustr "_" ++ buttons_mod g
                 ++ ustr "_export_" ++ lower format_name)
      with
      | Ok link =>
          let query_string := default [] (buttons_META g !! "QUERY_STRING"%string) in
          Yield (text,
                 link ++ match query_string with
                         | [] => []
                         | _ => ustr "?" ++ iri_to_uri query_string
                         end)
                (mkButtons (buttons_app g) (buttons_mod g) (buttons_META g) formats)
      | Raise e => Raised e
      end
  end.

Definition get_urls : result (list url) :=
  let urls := super_get_urls in
  let app := app_label meta in
  do mod_ <- except_AttributeError (getattr (model_name meta))
                                   (getattr (model_name meta));
  let new_urls :=
    map (fun '(format_name, delimiter) =>
           mkUrl (ustr "^export/" ++ lower format_name ++ ustr "$")
                 export_changelist
                 (Some (app ++ ustr "_" ++ mod_ ++ ustr "_export_"
                        ++ lower format_name))
                 {[ "extra_context"%string :=
                      {[ "export_delimiter"%string := delimiter ]} ]})
        export_formats in
  let my_urls := new_urls in
  Ok (my_urls ++ urls).

End urls_and_buttons.

(** The [export_formats] of the four admin classes. *)
Definition ExportableAdmin_export_formats : list (text * text) :=
  [(ustr "CSV", ustr ","); (ustr "Tab Delimited", [9])].
Definition CSVExportableAdmin_export_formats : list (text * text) :=
  [(ustr "CSV", ustr ",")].
Definition PipeExportableAdmin_export_formats : list (text * text) :=
  [(ustr "Pipe", ustr "|")].
Definition MultiExportableAdmin_export_formats : list (text * text) :=
  [(ustr "CSV", ustr ","); (ustr "Pipe", ustr "|")].

End ExportableAdmin.

(** * Vocabulary of the statements *)

(** The position of a buffer never falls behind its end. *)
Definition StringIO_wf (q : StringIO.t) : Prop :=
  (length (StringIO.buf q) <= StringIO.pos q)%nat.

(** The cells [DictWriter] takes out of a row once [writerow] has converted
    its values, the line they make, and the header line. *)
Definition cells (w : csv.DictWriter) (row : gmap text value) : list text :=
  map (fun key => match row !! key with
                  | Some v => smart_text v
                  | None => []
                  end) (csv.fieldnames w).

Definition line (w : csv.DictWriter) (row : gmap text value) : text :=
  csv.record (csv.delimiter w) (cells w row).

Definition header_line (w : csv.DictWriter) : text :=
  csv.record (csv.delimiter w) (csv.fieldnames w).

Section Calls.
Context {codec : Codec} {f : Stream}.

(** A caller that calls [writerow] on each row in turn: what it got back
    before the first exception, and the writer it is left with. *)
Fixpoint calls (self : UnicodeWriter.t codec f) (rows : list (gmap text value))
  : list object * result (UnicodeWriter.t codec f) :=
  match rows with
  | [] => ([], Ok self)
  | row :: rows =>
      match UnicodeWriter.writerow self row with
      | Ok (res, self) => let '(rest, o) := calls self rows in (res :: rest, o)
      | Raise e => ([], Raise e)
      end
  end.
End Calls.

(** The number of characters of the lines of [rows]. *)
Definition lines_length (w : csv.DictWriter) (rows : list (gmap text value)) : nat :=
  sum_list (map (fun row => length (line w row)) rows).

(** The byte chunks a consumer collected, joined into one document. *)
Definition joined (chunks : list object) : bytes :=
  flat_map (fun o => match o with PyBytes b => b | _ => [] end) chunks.

(** The end-to-end example: two columns, two records, a comma. *)
Module Example.
Definition fieldnames : list text := [ustr "Name"; ustr "Amount"].

Definition row_A : gmap text value :=
  {[ ustr "Name" := VText (ustr "A"); ustr "Amount" := VInt 5 ]}.

Definition row_BC : gmap text value :=
  {[ ustr "Name" := VText (ustr "B,C"); ustr "Amount" := VInt 10 ]}.

Definition row_None : gmap text value :=
  {[ ustr "Name" := VText (ustr "A"); ustr "Amount" := VNone ]}.

Definition header : text := ustr "Name,Amount" ++ [CR; LF].
Definition line_A : text := ustr "A,5" ++ [CR; LF].
Definition line_BC : text :=
  [csv.quotechar] ++ ustr "B,C" ++ [csv.quotechar] ++ ustr ",10" ++ [CR; LF].

(** The writer right after its construction. *)
Definition writer0 : UnicodeWriter.t utf_8.codec Echo :=
  UnicodeWriter.mk utf_8.codec Echo
    (StringIO.mk header 13) (csv.mkDictWriter fieldnames 44) tt tt.

(** The document of the example, and the one the writer produces. *)
Definition expected : text := header ++ line_A ++ line_BC.
Definition produced : text := header ++ line_A ++ repeat NUL 18 ++ line_BC.
End Example.

(** The export view: the columns that are exported, the value the view
    hands to the writer for a column of a record, and the row it builds
    when no lookup raises. *)
Section ExportVocabulary.
Import ExportableAdmin.
Context {record : Type}.
Variable label_for_field : column -> text.
Variable lookup_field : column -> record -> lookup.
Variable strip_tags : text -> text.

Definition columns (fields : list column) : list column :=
  filter (fun field_name => field_name <> action_checkbox) fields.

Definition exported (field_name : column) (obj : record) : value :=
  match lookup_field field_name obj with
  | Found (VText s) => VText (strip_tags s)
  | Found v => v
  | ObjectDoesNotExist => VNone
  | LookupRaises _ => VNone
  end.

Definition export_row (fields : list column) (obj : record) : gmap text value :=
  foldl (fun row field_name =>
           <[label_for_field field_name := exported field_name obj]> row)
        ∅ (columns fields).

(** No lookup of an exported column of [obj] raises anything but
    [ObjectDoesNotExist]. *)
Definition resolvable (fields : list column) (obj : record) : Prop :=
  forall field_name e,
    field_name ∈ columns fields -> lookup_field field_name obj <> LookupRaises e.

(** A row source for which [ObjectDoesNotExist] has been replaced by a
    lookup that returns [None]. *)
Definition lookup_or_None (field_name : column) (obj : record) : lookup :=
  match lookup_field field_name obj with
  | ObjectDoesNotExist => Found VNone
  | r => r
  end.
End ExportVocabulary.

(** A change list to run the export on: accounts with a name, an owner
    that may be gone and an amount. *)
Module Accounts.
Import ExportableAdmin.

Record account := mkAccount {
  name : text;
  owner : option text;
  amount : Z
}.

Definition label_for_field (field_name : column) : text :=
  if decide (field_name = Named "name") then ustr "Name"
  else if decide (field_name = Named "owner") then ustr "Owner"
  else if decide (field_name = Named "amount") then ustr "Amount"
  else ustr "other".

Definition lookup_field (field_name : column) (obj : account) : lookup :=
  if decide (field_name = Named "name") then Found (VText (name obj))
  else if decide (field_name = Named "owner") then
    match owner obj with
    | Some o => Found (VText o)
    | None => ObjectDoesNotExist
    end
  else if decide (field_name = Named "amount") then Found (VInt (amount obj))
  else LookupRaises (OtherError "AttributeError").

(** A stand-in for [strip_tags]: what stands between [<] and [>] goes,
    with the two signs. *)
Fixpoint strip_angle (inside : bool) (s : text) : text :=
  match s with
  | [] => []
  | c :: rest =>
      if c =? 60 then strip_angle true rest
      else if c =? 62 then strip_angle false rest
      else if inside then strip_angle inside rest
      else c :: strip_angle inside rest
  end.

Definition strip_tags : text -> text := strip_angle false.

(** Every column under the same label. *)
Definition same_label (field_name : column) : text := ustr "Name".

Definition list_display : list column :=
  [action_checkbox; Named "name"; Named "owner"; Named "amount"].

Definition orphan : account := mkAccount (ustr "A") None 5.
Definition bold : account := mkAccount (ustr "<b>B</b>") (Some (ustr "x")) 10.

Definition cl : ChangeList account := mkChangeList account list_display [orphan; bold].

Definition comma : option (gmap string text) :=
  Some {[ "export_delimiter"%string := ustr "," ]}.
End Accounts.

(** The code points UTF-8 has an encoding for: the Unicode scalar values. *)
Definition scalar (c : char) : bool :=
  (c <? 55296) || ((57343 <? c) && (c <? 1114112)).

(** The characters a cell may hold without being quoted. *)
Definition plain (delimiter : char) (field : text) : Prop :=
  forall c, c ∈ field ->
    c <> delimiter /\ c <> csv.quotechar /\ c <> CR /\ c <> LF.

(** Fields put one after the other with the delimiter in between. *)
Fixpoint separated (delimiter : char) (fields : list text) : text :=
  match fields with
  | [] => []
  | [f] => f
  | f :: rest => f ++ delimiter :: separated delimiter rest
  end.

(** The text the calls of [writerow] on [rows] read out of a buffer that
    holds [buf] at position [pos], call after call. *)
Fixpoint drained (w : csv.DictWriter) (buf : text) (pos : nat)
    (rows : list (gmap text value)) : text :=
  match rows with
  | [] => []
  | row :: rows =>
      buf ++ repeat NUL (pos - length buf) ++ line w row
      ++ drained w [] (pos + length (line w row)) rows
  end.

(** The text of the whole output of a writer for [rows]. *)
Definition document (w : csv.DictWriter) (rows : list (gmap text value)) : text :=
  drained w (header_line w) (length (header_line w)) rows.

(** What the chunk of a row holds before the line of the row: the header
    line for the first row, and for a later row as many NUL characters as
    the header line and the lines of the rows before it have characters. *)
Definition lead (w : csv.DictWriter) (prev : list (gmap text value)) : text :=
  match prev with
  | [] => header_line w
  | _ => repeat NUL (length (header_line w) + lines_length w prev)
  end.

Definition is_bytes (o : object) : Prop :=
  match o with PyBytes _ => True | _ => False end.

(** The export view again: the exception of the first lookup that raises
    one for a record, in the order of the columns. *)
Section ExportErrors.
Import ExportableAdmin.
Context {record : Type}.
Variable lookup_field : column -> record -> lookup.

Fixpoint first_error (fields : list column) (obj : record) : option exn :=
  match fields with
  | [] => None
  | field_name :: fields =>
      if decide (field_name = action_checkbox) then first_error fields obj
      else
        match lookup_field field_name obj with
        | LookupRaises e => Some e
        | _ => first_error fields obj
        end
  end.
End ExportErrors.

(** The keyword argument a URL pattern passes to its view as
    [extra_context]. *)
Definition extra_context_of (p : ExportableAdmin.url) : option (gmap string text) :=
  ExportableAdmin.kwargs p !! "extra_context"%string.

(** Lower case for the letters A to Z, to run the URL code on. *)
Definition ascii_lower (s : text) : text :=
  map (fun c => if (65 <=? c) && (c <=? 90) then c + 32 else c) s.

(** A resolver that knows every name and answers with a path made of it. *)
Definition reverse_any (viewname : text) : result text :=
  Ok (ustr "/" ++ viewname ++ ustr "/").

(** A row source that lets the missing owner of an account through as an
    error of its own, and a change list that meets it at its second
    record. *)
Definition lookup_strict (field_name : ExportableAdmin.column)
    (obj : Accounts.account) : ExportableAdmin.lookup :=
  match Accounts.lookup_field field_name obj with
  | ExportableAdmin.ObjectDoesNotExist =>
      ExportableAdmin.LookupRaises (OtherError "AttributeError")
  | r => r
  end.

Definition cl_strict : ExportableAdmin.ChangeList Accounts.account :=
  ExportableAdmin.mkChangeList Accounts.account Accounts.list_display
    [Accounts.bold; Accounts.orphan].

(** Change lists and contexts to run the view on its edges. *)
Definition cl_empty : ExportableAdmin.ChangeList Accounts.account :=
  ExportableAdmin.mkChangeList Accounts.account Accounts.list_display [].

Definition two_characters : option (gmap string text) :=
  Some {[ "export_delimiter"%string := ustr ", " ]}.

(** The [_meta] of a model under a framework that has [model_name] only,
    and under one that has [module_name] only; and the patterns inherited
    from the admin. *)
Definition meta_new : ExportableAdmin.Options :=
  ExportableAdmin.mkOptions (ustr "bank") None (Some (ustr "account")).

Definition meta_old : ExportableAdmin.Options :=
  ExportableAdmin.mkOptions (ustr "bank") (Some (ustr "account")) None.

Definition inherited_urls : list ExportableAdmin.url :=
  [ExportableAdmin.mkUrl (ustr "^$") (ExportableAdmin.inherited_view 1)
     (Some (ustr "bank_account_changelist")) ∅].

(** What the button of a format links to, given the resolved path of its
    URL. *)
Definition button (iri_to_uri : text -> text) (META : gmap string text)
    (format : text * text) (link : text) : text * text :=
  (ustr "Export as " ++ fst format,
   link ++ match default [] (META !! "QUERY_STRING"%string) with
           | [] => []
           | query_string => ustr "?" ++ iri_to_uri query_string
           end).

(** The distinct elements of a list in the order of their first
    occurrence, and the last column of a list that carries a label. *)
Definition first_seen {K : Type} `{EqDecision K} (l : list K) : list K :=
  foldl (fun seen k => if decide (k ∈ seen) then seen else seen ++ [k]) [] l.

Definition last_under (label_for_field : ExportableAdmin.column -> text)
    (key : text) (fields : list ExportableAdmin.column)
  : option ExportableAdmin.column :=
  last (filter (fun field_name => label_for_field field_name = key) fields).

(** A [list_display] with a column named twice. *)
Definition list_display_twice : list ExportableAdmin.column :=
  [ExportableAdmin.Named "amount"; ExportableAdmin.action_checkbox;
   ExportableAdmin.Named "name"; ExportableAdmin.Named "amount"].

Definition cl_twice : ExportableAdmin.ChangeList Accounts.account :=
  ExportableAdmin.mkChangeList Accounts.account list_display_twice [Accounts.bold].

(** * Properties *)

(** Evaluate one side of an equation on concrete data. The term alone is
    computed, not the types around it. *)
Ltac compute_lhs H :=
  match type of H with
  | ?lhs = ?rhs => let v := eval vm_compute in lhs in change (v = rhs) in H
  end.

(** ** The text buffer *)

Module StringIOFacts.
Import StringIO.

#[local] Abbreviation wf := StringIO_wf.

Lemma wf_new : wf new.
Proof. unfold StringIO_wf; simpl; lia. Qed.

Lemma wf_truncate q n : wf q -> wf (truncate q n).
Proof. unfold StringIO_wf; simpl. rewrite length_take. lia. Qed.

(** A write at or past the end appends, after the NUL filling. *)
Lemma write_at_end q s :
  wf q -> s <> [] ->
  write q s =
    mk (buf q ++ repeat NUL (pos q - length (buf q)) ++ s)
       (pos q + length s).
Proof.
  intros Hwf Hs. unfold write. destruct s as [|c s]; [done|].
  f_equal. set (p := buf q ++ _).
  assert (Hlen : length p = pos q).
  { subst p. rewrite length_app, repeat_length. unfold StringIO_wf in Hwf. lia. }
  rewrite take_ge by lia. rewrite drop_ge by lia.
  subst p. by rewrite app_nil_r, <- app_assoc.
Qed.

Lemma wf_write q s : wf q -> wf (write q s).
Proof.
  intros Hwf. destruct s as [|c s]; [done|].
  rewrite write_at_end by done. unfold StringIO_wf in *; simpl.
  rewrite !length_app, repeat_length. simpl. lia.
Qed.

End StringIOFacts.

(** ** The lines of the table *)

Module csvFacts.
Import csv.

Lemma record_not_nil d fields : record d fields <> [].
Proof.
  unfold record, lineterminator.
  destruct fields, (join d _); simpl; try done;
    by intros [_ ?]%app_eq_nil.
Qed.

(** A field without special characters is written as it is. *)
Lemma join_append_plain d field :
  quoted d field = false -> join_append d field = field.
Proof.
  unfold join_append. intros Hq. rewrite Hq. clear -Hq.
  induction field as [|c field IH]; [done|].
  simpl in Hq. apply orb_false_elim in Hq as [Hc Hq].
  simpl. rewrite IH by done.
  unfold special in Hc. apply orb_false_elim in Hc as [Hc _].
  apply orb_false_elim in Hc as [_ Hc]. by rewrite Hc.
Qed.

(** A field with a special character goes between quotes, its quote
    characters doubled. *)
Lemma join_append_quoted d field :
  quoted d field = true ->
  join_append d field = quotechar :: field_data field ++ [quotechar].
Proof. unfold join_append. by intros ->. Qed.

(** The header row is made of the field names themselves. *)
Lemma header_lookup (names : list text) key :
  key ∈ names ->
  (list_to_map (zip names names) : gmap text text) !! key = Some key.
Proof.
  induction names as [|a names IH]; [by intros ?%elem_of_nil|].
  intros Hin. simpl. destruct (decide (a = key)) as [->|Hne].
  - by rewrite lookup_insert_eq.
  - rewrite lookup_insert_ne by done. apply IH.
    apply elem_of_cons in Hin as [?|?]; [congruence|done].
Qed.

Lemma header_dom (names : list text) :
  dom (list_to_map (zip names names) : gmap text text) ⊆ list_to_set names.
Proof.
  induction names as [|a names IH]; simpl.
  - by rewrite dom_empty.
  - rewrite dom_insert. by apply union_mono_l.
Qed.

Lemma header_fields w :
  _dict_to_list w (list_to_map (zip (fieldnames w) (fieldnames w)))
  = Ok (fieldnames w).
Proof.
  unfold _dict_to_list. rewrite decide_True by apply header_dom.
  f_equal. etrans; [|apply map_id].
  apply map_ext_in. intros key Hin. unfold id.
  rewrite header_lookup; [done|]. by apply list_elem_of_In.
Qed.

Lemma writeheader_ok w f :
  writeheader w f = Ok (StringIO.write f (record (delimiter w) (fieldnames w))).
Proof. unfold writeheader, writerow. by rewrite header_fields. Qed.

End csvFacts.

(** ** UTF-8 *)

Module utf_8Facts.
Import utf_8.

Lemma encode_app s1 s2 :
  encode (s1 ++ s2) =
    (do b1 <- encode s1; do b2 <- encode s2; Ok (b1 ++ b2)).
Proof.
  induction s1 as [|c s1 IH]; simpl.
  - by destruct (encode s2).
  - destruct (encode_char c) as [b|e]; simpl; [|done].
    rewrite IH. destruct (encode s1) as [b1|e1]; simpl; [|done].
    destruct (encode s2) as [b2|e2]; simpl; [|done].
    by rewrite app_assoc.
Qed.

Lemma encode_NUL n : encode (repeat NUL n) = Ok (repeat x00 n).
Proof.
  induction n as [|n IH]; simpl; [done|].
  by rewrite IH.
Qed.

(** A chunk is as long as its text at least: no character is dropped. *)
Lemma encode_length s b : encode s = Ok b -> (length s <= length b)%nat.
Proof.
  revert b. induction s as [|c s IH]; intros b; simpl.
  - intros [= <-]. done.
  - destruct (encode_char c) as [bc|] eqn:Hc; simpl; [|done].
    destruct (encode s) as [bs|]; simpl; [|done].
    intros [= <-]. rewrite length_app. specialize (IH bs eq_refl).
    assert (1 <= length bc)%nat; [|lia].
    unfold encode_char in Hc.
    repeat (case_match; simplify_eq); simpl; lia.
Qed.

End utf_8Facts.

(** ** The writer *)

Module UnicodeWriterFacts.
Section Facts.
Context {codec : Codec} {f : Stream}.
Implicit Types (self : UnicodeWriter.t codec f) (row : gmap text value).

Import UnicodeWriter.

Lemma dict_to_list_smart_text w row :
  csv._dict_to_list w (smart_text <$> row) =
    if decide (dom row ⊆ list_to_set (csv.fieldnames w))
    then Ok (cells w row) else Raise ValueError.
Proof.
  unfold csv._dict_to_list. rewrite dom_fmap_L.
  case_decide; [|done]. f_equal. apply map_ext. intros key.
  rewrite lookup_fmap. by destruct (row !! key).
Qed.

(** [writerow], call by call. *)
Lemma writerow_unfold self row :
  writerow self row =
    if decide (dom row ⊆ list_to_set (csv.fieldnames (writer self))) then
      let q := StringIO.write (queue self) (line (writer self) row) in
      do '(data, enc) <- enc_encode codec (encoder self) (StringIO.getvalue q);
      let '(s, res) := write f (stream self) data in
      Ok (res, mk codec f (StringIO.truncate q 0) (writer self) s enc)
    else Raise ValueError.
Proof.
  unfold writerow, csv.writerow. rewrite dict_to_list_smart_text.
  case_decide; simpl; [|done]. done.
Qed.

Lemma init_unfold (f0 : stream_state f) names d :
  __init__ codec f f0 names [d] =
    Ok (mk codec f
          (StringIO.mk (csv.record d names) (length (csv.record d names)))
          (csv.mkDictWriter names d) f0 (enc_init codec)).
Proof.
  unfold __init__. simpl. rewrite csvFacts.writeheader_ok. simpl.
  rewrite StringIOFacts.write_at_end;
    [|apply StringIOFacts.wf_new|apply csvFacts.record_not_nil].
  done.
Qed.

(** The buffer of a writer is either drained, or holds the header since
    construction. *)
Lemma writerow_queue self row res self' :
  writerow self row = Ok (res, self') ->
  StringIO_wf (queue self) ->
  queue self' =
    StringIO.mk [] (StringIO.pos (queue self) + length (line (writer self) row))
  /\ writer self' = writer self.
Proof.
  rewrite writerow_unfold. case_decide; [|done]. simpl.
  destruct (enc_encode _ _ _) as [[data enc]|]; simpl; [|done].
  destruct (write f _ _) as [s r]. intros [= <- <-] Hwf. simpl.
  rewrite StringIOFacts.write_at_end by (done || apply csvFacts.record_not_nil).
  done.
Qed.

(** The text read out of the buffer by a call. *)
Lemma writerow_data self row res self' :
  writerow self row = Ok (res, self') ->
  StringIO_wf (queue self) ->
  exists data,
    enc_encode codec (encoder self)
      (StringIO.buf (queue self)
       ++ repeat NUL (StringIO.pos (queue self) - length (StringIO.buf (queue self)))
       ++ line (writer self) row) = Ok (data, encoder self')
    /\ write f (stream self) data = (stream self', res).
Proof.
  rewrite writerow_unfold. case_decide; [|done]. simpl.
  intros Hrow Hwf.
  rewrite StringIOFacts.write_at_end in Hrow
    by (done || apply csvFacts.record_not_nil).
  simpl in Hrow.
  destruct (enc_encode _ _ _) as [[data enc]|]; simpl in *; [|done].
  destruct (write f _ _) as [s r] eqn:Hw. injection Hrow as <- <-.
  exists data. by rewrite Hw.
Qed.

End Facts.
End UnicodeWriterFacts.

(** ** Sequences of calls *)

Section CallsFacts.
Context {codec : Codec} {f : Stream}.
Implicit Types (self : UnicodeWriter.t codec f) (row : gmap text value).

Lemma calls_cons self row rows :
  calls self (row :: rows) =
    match UnicodeWriter.writerow self row with
    | Ok (res, self') => let '(rest, o) := calls self' rows in (res :: rest, o)
    | Raise e => ([], Raise e)
    end.
Proof. done. Qed.

Lemma pull_writerows n self row rows :
  pull UnicodeWriter.next (S n) (UnicodeWriter.writerows self (row :: rows)) =
    match UnicodeWriter.writerow self row with
    | Ok (res, self') =>
        let '(rest, st) :=
          pull UnicodeWriter.next n (UnicodeWriter.writerows self' rows) in
        (res :: rest, st)
    | Raise e => ([], Failed e)
    end.
Proof.
  simpl. by destruct (UnicodeWriter.writerow self row) as [[res self']|e].
Qed.

(** Where a run of successful calls leaves the buffer. *)
Lemma calls_queue rows : forall self chunks self',
  calls self rows = (chunks, Ok self') ->
  StringIO_wf (UnicodeWriter.queue self) ->
  UnicodeWriter.writer self' = UnicodeWriter.writer self
  /\ StringIO_wf (UnicodeWriter.queue self')
  /\ StringIO.pos (UnicodeWriter.queue self') =
       (StringIO.pos (UnicodeWriter.queue self)
        + lines_length (UnicodeWriter.writer self) rows)%nat
  /\ (rows <> [] -> StringIO.buf (UnicodeWriter.queue self') = [])
  /\ length chunks = length rows.
Proof.
  induction rows as [|row rows IH]; intros self chunks self' Hc Hwf.
  - injection Hc as <- <-. unfold lines_length. simpl.
    repeat split; (done || lia).
  - rewrite calls_cons in Hc.
    destruct (UnicodeWriter.writerow self row) as [[res self1]|] eqn:Hrow; [|done].
    destruct (calls self1 rows) as [rest o] eqn:Hrest.
    injection Hc as <- ->.
    apply UnicodeWriterFacts.writerow_queue in Hrow as [Hq Hw]; [|done].
    assert (Hwf1 : StringIO_wf (UnicodeWriter.queue self1)).
    { rewrite Hq. unfold StringIO_wf. simpl. lia. }
    destruct (IH _ _ _ Hrest Hwf1) as (Hw' & Hwf' & Hpos & Hbuf & Hlen).
    rewrite Hw in *. repeat split; try done.
    + rewrite Hpos, Hq. unfold lines_length. simpl. lia.
    + intros _. destruct rows as [|row' rows]; [|by apply Hbuf].
      injection Hrest as <- <-. by rewrite Hq.
    + simpl. by rewrite Hlen.
Qed.

End CallsFacts.

(** ** Claims on [UnicodeWriter] *)

(** C1, on the end-to-end example. The two chunks the writer returns for
    the example's rows do not join into the example's document: between the
    line of the first record and the line of the second there are eighteen
    NUL bytes, one per character written before. *)
Theorem example_document_is_padded :
  exists w0 c1 c2 w2,
    UnicodeWriter.__init__ utf_8.codec Echo tt Example.fieldnames (ustr ",") = Ok w0
    /\ calls w0 [Example.row_A; Example.row_BC] = ([PyBytes c1; PyBytes c2], Ok w2)
    /\ utf_8.encode Example.produced = Ok (joined [PyBytes c1; PyBytes c2])
    /\ utf_8.encode Example.expected <> Ok (joined [PyBytes c1; PyBytes c2]).
Proof.
  do 4 eexists. split; [reflexivity|].
  split; [reflexivity|].
  split; [reflexivity|].
  vm_compute. discriminate.
Qed.

(** C2, refuted on a sink that records what it receives: after the
    construction the sink has received no chunk at all, so the encoded
    header line is not its first chunk. *)
Lemma construction_writes_nothing_to_the_sink :
  exists w header,
    UnicodeWriter.__init__ utf_8.codec BytesIO [] Example.fieldnames (ustr ",") = Ok w
    /\ utf_8.encode Example.header = Ok header
    /\ UnicodeWriter.stream w = []
    /\ ~ (exists later, UnicodeWriter.stream w = header :: later).
Proof.
  do 2 eexists. split; [reflexivity|].
  split; [reflexivity|].
  split; [reflexivity|].
  intros [later Hlater]. discriminate Hlater.
Qed.

(** C2 as amended. Constructing a [UnicodeWriter] with a one-character
    delimiter succeeds, writes the header line into the internal buffer and
    leaves the sink and the encoder untouched; the header line leaves the
    writer with the first [writerow], whose chunk is the encoding of the
    header line followed by the line of that row. *)
Theorem header_waits_in_the_buffer (codec : Codec) (f : Stream)
    (f0 : stream_state f) (names : list text) (d : char) :
  exists w,
    UnicodeWriter.__init__ codec f f0 names [d] = Ok w
    /\ UnicodeWriter.stream w = f0
    /\ UnicodeWriter.encoder w = enc_init codec
    /\ StringIO.getvalue (UnicodeWriter.queue w) = header_line (UnicodeWriter.writer w)
    /\ forall row res w',
         UnicodeWriter.writerow w row = Ok (res, w') ->
         exists data,
           enc_encode codec (enc_init codec)
             (header_line (UnicodeWriter.writer w) ++ line (UnicodeWriter.writer w) row)
           = Ok (data, UnicodeWriter.encoder w')
           /\ write f f0 data = (UnicodeWriter.stream w', res).
Proof.
  eexists. split; [apply UnicodeWriterFacts.init_unfold|].
  simpl. repeat split; try done.
  intros row res w' Hrow.
  apply UnicodeWriterFacts.writerow_data in Hrow as (data & Henc & Hw).
  - simpl in *. rewrite Nat.sub_diag in Henc. simpl in Henc. eauto.
  - unfold StringIO_wf. simpl. lia.
Qed.

Lemma header_waits_in_the_buffer_witness :
  exists w c1 w1,
    UnicodeWriter.__init__ utf_8.codec Echo tt Example.fieldnames (ustr ",") = Ok w
    /\ UnicodeWriter.writerow w Example.row_A = Ok (PyBytes c1, w1)
    /\ utf_8.encode (Example.header ++ Example.line_A) = Ok c1.
Proof.
  destruct (header_waits_in_the_buffer utf_8.codec Echo tt Example.fieldnames 44)
    as (w & Hinit & _ & _ & _ & Hfirst).
  exists w. compute_lhs Hinit. injection Hinit as <-.
  edestruct (Hfirst Example.row_A) as (data & Henc & Hwrite); [reflexivity|].
  compute_lhs Henc. injection Henc as <-.
  do 2 eexists. split; [reflexivity|]. split; reflexivity.
Defined.

(** C3, refuted on the example: when the first [writerow] is called the
    buffer is not empty, it holds the header line; and when the second one
    reads the buffer out, it holds 28 characters for a line of 10. *)
Lemma buffer_not_empty_before_first_row :
  exists w c1 w1,
    UnicodeWriter.__init__ utf_8.codec Echo tt Example.fieldnames (ustr ",") = Ok w
    /\ StringIO.getvalue (UnicodeWriter.queue w) = Example.header
    /\ StringIO.getvalue (UnicodeWriter.queue w) <> []
    /\ UnicodeWriter.writerow w Example.row_A = Ok (c1, w1)
    /\ length (line (UnicodeWriter.writer w1) Example.row_BC) = 10%nat
    /\ length (StringIO.getvalue
                 (StringIO.write (UnicodeWriter.queue w1)
                    (line (UnicodeWriter.writer w1) Example.row_BC))) = 28%nat.
Proof.
  do 3 eexists. split; [reflexivity|].
  split; [reflexivity|].
  split; [vm_compute; discriminate|].
  split; [reflexivity|].
  split; reflexivity.
Qed.

(** C3 as amended. After construction the buffer holds the header line;
    every [writerow] that returns leaves the content of the buffer empty,
    so that from the second call on a [writerow] finds the content of the
    buffer empty. *)
Theorem buffer_content_is_drained (codec : Codec) (f : Stream) :
  (forall (f0 : stream_state f) names d,
     exists w, UnicodeWriter.__init__ codec f f0 names [d] = Ok w
       /\ StringIO.getvalue (UnicodeWriter.queue w) = csv.record d names)
  /\ (forall (self : UnicodeWriter.t codec f) row res self',
        UnicodeWriter.writerow self row = Ok (res, self') ->
        StringIO.getvalue (UnicodeWriter.queue self') = [])
  /\ (forall (self : UnicodeWriter.t codec f) rows chunks self',
        calls self rows = (chunks, Ok self') -> rows <> [] ->
        StringIO.getvalue (UnicodeWriter.queue self') = []).
Proof.
  split; [|split].
  - intros f0 names d. eexists. split; [apply UnicodeWriterFacts.init_unfold|done].
  - intros self row res self'. rewrite UnicodeWriterFacts.writerow_unfold.
    case_decide; [|done]. simpl.
    destruct (enc_encode _ _ _) as [[data enc]|]; simpl; [|done].
    destruct (write f _ _) as [s r]. by intros [= <- <-].
  - intros self rows. revert self.
    induction rows as [|row rows IH]; intros self chunks self' Hc Hne; [done|].
    rewrite calls_cons in Hc.
    destruct (UnicodeWriter.writerow self row) as [[res self1]|] eqn:Hrow; [|done].
    destruct (calls self1 rows) as [rest o] eqn:Hrest.
    injection Hc as <- ->.
    destruct rows as [|row' rows].
    + injection Hrest as <- <-. revert Hrow.
      rewrite UnicodeWriterFacts.writerow_unfold.
      case_decide; [|done]. simpl.
      destruct (enc_encode _ _ _) as [[data enc]|]; simpl; [|done].
      destruct (write f _ _) as [s r]. by intros [= <- <-].
    + by eapply IH.
Qed.

Lemma buffer_content_is_drained_witness :
  exists w c1 w1,
    UnicodeWriter.__init__ utf_8.codec Echo tt Example.fieldnames (ustr ",") = Ok w
    /\ UnicodeWriter.writerow w Example.row_A = Ok (c1, w1)
    /\ StringIO.getvalue (UnicodeWriter.queue w1) = [].
Proof.
  do 3 eexists. split; [reflexivity|].
  refine ((fun H => conj H
    (proj1 (proj2 (buffer_content_is_drained utf_8.codec Echo)) _ _ _ _ H)) _).
  reflexivity.
Defined.

(** C4. After every [writerow] that returns, the position of the buffer is
    the number of characters written into it since construction: the header
    line and the lines of all rows so far. From the second call on, the
    text a call encodes into its chunk is that many NUL characters (as many
    as the header line and the earlier lines have characters) followed by
    the line of the row; in UTF-8 the chunk is as many NUL bytes followed by
    the encoded line. *)
Theorem chunk_starts_with_NUL_run (codec : Codec) (f : Stream)
    (f0 : stream_state f) (names : list text) (d : char)
    (prev : list (gmap text value)) (row : gmap text value)
    (w0 w w' : UnicodeWriter.t codec f) (chunks : list object)
    (res : object) :
  UnicodeWriter.__init__ codec f f0 names [d] = Ok w0 ->
  calls w0 prev = (chunks, Ok w) ->
  UnicodeWriter.writerow w row = Ok (res, w') ->
  let dw := UnicodeWriter.writer w0 in
  let written := (length (header_line dw) + lines_length dw prev)%nat in
  StringIO.pos (UnicodeWriter.queue w) = written
  /\ StringIO.pos (UnicodeWriter.queue w') = (written + length (line dw row))%nat
  /\ (prev <> [] ->
      exists chunk,
        enc_encode codec (UnicodeWriter.encoder w)
          (repeat NUL written ++ line dw row)
        = Ok (chunk, UnicodeWriter.encoder w')
        /\ write f (UnicodeWriter.stream w) chunk
           = (UnicodeWriter.stream w', res))
  /\ (forall n s st,
        enc_encode utf_8.codec st (repeat NUL n ++ s)
        = (do encoded <- utf_8.encode s; Ok (repeat x00 n ++ encoded, st))).
Proof.
  intros Hinit Hcalls Hrow dw written.
  rewrite UnicodeWriterFacts.init_unfold in Hinit. injection Hinit as <-.
  assert (Hwf0 : StringIO_wf (StringIO.mk (csv.record d names)
                                (length (csv.record d names)))).
  { unfold StringIO_wf. simpl. lia. }
  apply calls_queue in Hcalls as (Hw & Hwf & Hpos & Hbuf & _); [|done].
  simpl in Hw, Hpos. subst dw written. simpl. unfold header_line. simpl.
  split; [done|].
  pose proof (UnicodeWriterFacts.writerow_queue _ _ _ _ Hrow Hwf) as [Hq _].
  split.
  { rewrite Hq. simpl. by rewrite Hpos, Hw. }
  split.
  - intros Hne. specialize (Hbuf Hne).
    apply UnicodeWriterFacts.writerow_data in Hrow as (data & Henc & Hwr); [|done].
    rewrite Hbuf, Hpos, Hw in Henc. simpl in Henc. rewrite Nat.sub_0_r in Henc.
    eauto.
  - intros n s st. simpl.
    rewrite utf_8Facts.encode_app, utf_8Facts.encode_NUL. simpl.
    by destruct (utf_8.encode s).
Qed.

Lemma chunk_starts_with_NUL_run_witness :
  exists (w1 w2 : UnicodeWriter.t utf_8.codec Echo) encoded,
    UnicodeWriter.writerow w1 Example.row_BC
    = Ok (PyBytes (repeat x00 18 ++ encoded), w2)
    /\ StringIO.pos (UnicodeWriter.queue w1) = 18%nat
    /\ StringIO.pos (UnicodeWriter.queue w2) = 28%nat
    /\ utf_8.encode Example.line_BC = Ok encoded.
Proof.
  edestruct (chunk_starts_with_NUL_run utf_8.codec Echo tt Example.fieldnames 44
               [Example.row_A] Example.row_BC) as (Hpos & Hpos' & Hchunk & _);
    [reflexivity|reflexivity|reflexivity|].
  destruct Hchunk as (chunk & Henc & Hc); [discriminate|].
  compute_lhs Henc. injection Henc as <-.
  do 3 eexists.
  refine (conj _ (conj Hpos (conj Hpos' _))); reflexivity.
Defined.

(** C7, refuted on a binary file: [writerow] returns what the file's
    [write] returned, the number 18, while the bytes forwarded to the file
    are the 18-byte chunk. *)
Lemma writerow_on_a_file_returns_a_count :
  exists w res w1 chunk,
    UnicodeWriter.__init__ utf_8.codec BytesIO [] Example.fieldnames (ustr ",") = Ok w
    /\ UnicodeWriter.writerow w Example.row_A = Ok (res, w1)
    /\ UnicodeWriter.stream w1 = [chunk]
    /\ res = PyInt 18
    /\ res <> PyBytes chunk.
Proof.
  do 4 eexists. split; [reflexivity|].
  split; [reflexivity|].
  split; [reflexivity|].
  split; [reflexivity|discriminate].
Qed.

(** C7 as amended. [writerow] returns the object the sink's [write]
    returned for the encoded bytes; with [Echo], whose [write] returns its
    argument and keeps nothing, that object is the encoded bytes
    themselves. *)
Theorem writerow_returns_what_write_returns (codec : Codec) :
  (forall (f : Stream) (self : UnicodeWriter.t codec f) row res self',
     UnicodeWriter.writerow self row = Ok (res, self') ->
     exists data,
       enc_encode codec (UnicodeWriter.encoder self)
         (StringIO.getvalue
            (StringIO.write (UnicodeWriter.queue self)
               (line (UnicodeWriter.writer self) row)))
       = Ok (data, UnicodeWriter.encoder self')
       /\ write f (UnicodeWriter.stream self) data = (UnicodeWriter.stream self', res))
  /\ (forall (self : UnicodeWriter.t codec Echo) row res self',
        UnicodeWriter.writerow self row = Ok (res, self') ->
        exists data,
          enc_encode codec (UnicodeWriter.encoder self)
            (StringIO.getvalue
               (StringIO.write (UnicodeWriter.queue self)
                  (line (UnicodeWriter.writer self) row)))
          = Ok (data, UnicodeWriter.encoder self')
          /\ res = PyBytes data
          /\ UnicodeWriter.stream self' = UnicodeWriter.stream self).
Proof.
  assert (Hgen : forall (f : Stream) (self : UnicodeWriter.t codec f) row res self',
     UnicodeWriter.writerow self row = Ok (res, self') ->
     exists data,
       enc_encode codec (UnicodeWriter.encoder self)
         (StringIO.getvalue
            (StringIO.write (UnicodeWriter.queue self)
               (line (UnicodeWriter.writer self) row)))
       = Ok (data, UnicodeWriter.encoder self')
       /\ write f (UnicodeWriter.stream self) data = (UnicodeWriter.stream self', res)).
  { intros f self row res self'. rewrite UnicodeWriterFacts.writerow_unfold.
    case_decide; [|done]. simpl.
    destruct (enc_encode _ _ _) as [[data enc]|]; simpl; [|done].
    destruct (write f _ _) as [s r] eqn:Hw. intros [= <- <-]. simpl. eauto. }
  split; [exact Hgen|].
  intros self row res self' Hrow.
  destruct (Hgen _ _ _ _ _ Hrow) as (data & Henc & Hw).
  exists data. split; [done|]. simpl in Hw. injection Hw as <- <-. done.
Qed.

Lemma writerow_returns_what_write_returns_witness :
  exists c1 w1 data,
    UnicodeWriter.writerow Example.writer0 Example.row_A = Ok (c1, w1)
    /\ utf_8.encode (Example.header ++ Example.line_A) = Ok data
    /\ c1 = PyBytes data.
Proof.
  edestruct (proj2 (writerow_returns_what_write_returns utf_8.codec)
               Example.writer0 Example.row_A) as (data & Henc & Hres & _);
    [reflexivity|].
  compute_lhs Henc. injection Henc as <-.
  do 3 eexists. refine (conj _ (conj _ Hres)); reflexivity.
Defined.

(** C9. [writerows] is the lazy map of [writerow]: creating the generator
    calls nothing; [k] calls of [next] hand out what [k] calls of
    [writerow] on the first [k] rows return, in order, and leave the
    generator suspended before the remaining rows; and a consumer that
    drains it gets one element per row, or the elements before the first
    exception. *)
Theorem writerows_is_lazy_map (codec : Codec) (f : Stream)
    (self : UnicodeWriter.t codec f) (rows : list (gmap text value)) :
  (forall k, (k <= length rows)%nat ->
     pull UnicodeWriter.next k (UnicodeWriter.writerows self rows) =
       let '(res, o) := calls self (take k rows) in
       (res, match o with
             | Ok self' => Suspended (UnicodeWriter.writerows self' (drop k rows))
             | Raise e => Failed e
             end))
  /\ pull UnicodeWriter.next (S (length rows)) (UnicodeWriter.writerows self rows) =
       (let '(res, o) := calls self rows in
        (res, match o with Ok _ => Exhausted | Raise e => Failed e end))
  /\ (forall res self',
        calls self rows = (res, Ok self') -> length res = length rows).
Proof.
  split; [|split].
  - revert self. induction rows as [|row rows IH]; intros self k Hk.
    + destruct k; [done|simpl in Hk; lia].
    + destruct k as [|k]; [done|]. simpl in Hk.
      rewrite pull_writerows. cbn [take drop]. rewrite calls_cons.
      destruct (UnicodeWriter.writerow self row) as [[res self1]|e]; [|done].
      rewrite (IH self1 k) by lia.
      by destruct (calls self1 (take k rows)).
  - revert self. induction rows as [|row rows IH]; intros self; [done|].
    cbn [length]. rewrite pull_writerows, calls_cons.
    destruct (UnicodeWriter.writerow self row) as [[res self1]|e]; [|done].
    rewrite IH. by destruct (calls self1 rows).
  - revert self. induction rows as [|row rows IH]; intros self res self'.
    + by intros [= <- _].
    + rewrite calls_cons.
      destruct (UnicodeWriter.writerow self row) as [[r self1]|e]; [|done].
      destruct (calls self1 rows) as [rest o] eqn:Hrest.
      intros [= <- ->]. simpl. f_equal. by eapply IH.
Qed.

Lemma writerows_is_lazy_map_witness :
  exists c1 w1,
    UnicodeWriter.writerow Example.writer0 Example.row_A = Ok (c1, w1)
    /\ pull UnicodeWriter.next 1
         (UnicodeWriter.writerows Example.writer0 [Example.row_A; Example.row_BC])
       = ([c1], Suspended (UnicodeWriter.writerows w1 [Example.row_BC])).
Proof.
  do 2 eexists. split; [reflexivity|].
  etransitivity.
  - apply (proj1 (writerows_is_lazy_map utf_8.codec Echo Example.writer0
                    [Example.row_A; Example.row_BC]) 1%nat).
    simpl. lia.
  - reflexivity.
Defined.

(** C6, refuted on a row whose second value is [None]: the line written
    for it ends in the four characters of the word None, not in an empty
    field. *)
Lemma None_is_written_as_a_word :
  exists w c w1,
    UnicodeWriter.__init__ utf_8.codec Echo tt Example.fieldnames (ustr ",") = Ok w
    /\ UnicodeWriter.writerow w Example.row_None = Ok (PyBytes c, w1)
    /\ utf_8.encode (Example.header ++ ustr "A,None" ++ [CR; LF]) = Ok c
    /\ utf_8.encode (Example.header ++ ustr "A," ++ [CR; LF]) <> Ok c.
Proof.
  do 3 eexists. split; [reflexivity|].
  split; [reflexivity|].
  split; [reflexivity|].
  vm_compute. discriminate.
Qed.

(** C6 as amended. No conversion of a field value makes [writerow] raise:
    it raises only for a key outside the field names ([ValueError]) or when
    the encoder raises on the text read from the buffer. The cells of the
    line are the values that are text unchanged, the other values through
    [str] (so [None] as the word None), and the empty text for the field
    names the row has no key for. *)
Theorem writerow_converts_every_value (codec : Codec) (f : Stream)
    (self : UnicodeWriter.t codec f) (row : gmap text value) :
  let w := UnicodeWriter.writer self in
  let data :=
    StringIO.getvalue
      (StringIO.write (UnicodeWriter.queue self)
         (csv.record (csv.delimiter w) (cells w row))) in
  cells w row =
    map (fun key =>
           match row !! key with
           | None => []
           | Some (VText s) => s
           | Some VNone => ustr "None"
           | Some (VBool b) => if b then ustr "True" else ustr "False"
           | Some (VInt z) => ustr (NilZero.string_of_int (Z.to_int z))
           end) (csv.fieldnames w)
  /\ match UnicodeWriter.writerow self row with
     | Ok (res, self') =>
         dom row ⊆ list_to_set (csv.fieldnames w)
         /\ exists chunk,
              enc_encode codec (UnicodeWriter.encoder self) data
              = Ok (chunk, UnicodeWriter.encoder self')
              /\ write f (UnicodeWriter.stream self) chunk
                 = (UnicodeWriter.stream self', res)
     | Raise e =>
         (e = ValueError /\ ~ dom row ⊆ list_to_set (csv.fieldnames w))
         \/ (dom row ⊆ list_to_set (csv.fieldnames w)
             /\ enc_encode codec (UnicodeWriter.encoder self) data = Raise e)
     end.
Proof.
  intros w data. split.
  - unfold cells. apply map_ext. intros key.
    destruct (row !! key) as [[|[]| |]|]; done.
  - rewrite UnicodeWriterFacts.writerow_unfold. subst w data.
    case_decide as Hdom; [|by left]. simpl. unfold line.
    destruct (enc_encode _ _ _) as [[chunk enc]|e]; simpl.
    + destruct (write f _ _) as [s r] eqn:Hw. simpl. eauto.
    + right. done.
Qed.


(** ** The export view *)

Module OrderedDictFacts.
Section Facts.
Context {K V : Type} `{EqDecision K}.
Implicit Types (d : OrderedDict.t K V) (k : K) (v : V).
Import OrderedDict.

Lemma getitem_setitem d k v k' :
  getitem (setitem d k v) k' = if decide (k = k') then Ok v else getitem d k'.
Proof.
  induction d as [|[k0 v0] d IH]; simpl.
  - by repeat case_decide.
  - destruct (decide (k0 = k)) as [->|Hne]; simpl.
    + by repeat case_decide.
    + rewrite IH. repeat case_decide; congruence.
Qed.

Lemma setitem_fresh d k v :
  k ∉ keys d -> setitem d k v = d ++ [(k, v)].
Proof.
  induction d as [|[k0 v0] d IH]; simpl; [done|].
  intros Hnotin. apply not_elem_of_cons in Hnotin as [Hne Hnotin].
  rewrite decide_False by congruence. by rewrite IH.
Qed.

End Facts.
End OrderedDictFacts.

Section ExportFacts.
Import ExportableAdmin.
Context {record : Type}.
Variable label_for_field : column -> text.
Variable lookup_field : column -> record -> lookup.
Variable strip_tags : text -> text.
Variable cl : ChangeList record.

#[local] Abbreviation headers := (res_headers label_for_field cl).
#[local] Abbreviation row_of :=
  (get_row label_for_field lookup_field strip_tags cl (list_display cl)).
#[local] Abbreviation put obj :=
  (fun (row : gmap text value) field_name =>
     <[label_for_field field_name :=
         exported lookup_field strip_tags field_name obj]> row).

Lemma columns_cons field_name fields :
  columns (field_name :: fields) =
    if decide (field_name = action_checkbox) then columns fields
    else field_name :: columns fields.
Proof.
  unfold columns. rewrite filter_cons.
  destruct (decide (field_name = action_checkbox)) as [->|Hne].
  - by rewrite decide_False by (intros H; by apply H).
  - by rewrite decide_True.
Qed.

Lemma columns_app fields1 fields2 :
  columns (fields1 ++ fields2) = columns fields1 ++ columns fields2.
Proof. apply filter_app. Qed.

Lemma elem_of_columns field_name fields :
  field_name ∈ columns fields <->
  field_name <> action_checkbox /\ field_name ∈ fields.
Proof.
  unfold columns.
  apply (list_elem_of_filter (fun f => f <> action_checkbox) fields field_name).
Qed.

(** *** The header labels *)

Lemma get_headers_getitem fields : forall d field_name,
  OrderedDict.getitem (get_headers label_for_field d fields) field_name =
    if decide (field_name ∈ columns fields)
    then Ok (label_for_field field_name)
    else OrderedDict.getitem d field_name.
Proof.
  induction fields as [|a fields IH]; intros d field_name; cbn [get_headers].
  - case_decide as Hin; [|done]. by apply elem_of_nil in Hin.
  - rewrite columns_cons. destruct (decide (a = action_checkbox)); [apply IH|].
    rewrite IH, OrderedDictFacts.getitem_setitem.
    destruct (decide (field_name ∈ columns fields)) as [Hin|Hnotin].
    + rewrite decide_True; [done|]. by apply list_elem_of_further.
    + destruct (decide (a = field_name)) as [->|Hne].
      * rewrite decide_True; [done|]. apply list_elem_of_here.
      * rewrite decide_False; [done|].
        intros [?|?]%elem_of_cons; congruence.
Qed.

Lemma headers_getitem field_name :
  field_name ∈ columns (list_display cl) ->
  OrderedDict.getitem headers field_name = Ok (label_for_field field_name).
Proof.
  intros Hin. unfold res_headers. rewrite get_headers_getitem.
  by rewrite decide_True.
Qed.

Lemma get_headers_fresh fields : forall d,
  NoDup (OrderedDict.keys d ++ columns fields) ->
  get_headers label_for_field d fields =
    d ++ map (fun field_name => (field_name, label_for_field field_name))
             (columns fields).
Proof.
  induction fields as [|a fields IH]; intros d Hnd; simpl.
  - unfold columns. simpl. by rewrite app_nil_r.
  - rewrite columns_cons in *.
    destruct (decide (a = action_checkbox)); [by apply IH|].
    apply NoDup_app in Hnd as (Hd & Hdisj & Hcols).
    apply NoDup_cons in Hcols as [Ha Hcols].
    assert (Hfresh : a ∉ OrderedDict.keys d).
    { intros Hin. apply (Hdisj a Hin). apply list_elem_of_here. }
    rewrite OrderedDictFacts.setitem_fresh by done.
    rewrite IH.
    + simpl. by rewrite <- app_assoc.
    + unfold OrderedDict.keys. rewrite map_app. simpl.
      rewrite <- app_assoc. simpl. apply NoDup_app. split; [done|]. split.
      * intros x Hx [->|Hin]%elem_of_cons; [done|].
        apply (Hdisj x Hx). by apply list_elem_of_further.
      * by apply NoDup_cons.
Qed.

(** With distinct exported columns the field names of the writer are the
    labels of the columns, in the order of [list_display]. *)
Lemma headers_values :
  NoDup (columns (list_display cl)) ->
  OrderedDict.values headers = map label_for_field (columns (list_display cl)).
Proof.
  intros Hnd. unfold res_headers. rewrite get_headers_fresh by done.
  unfold OrderedDict.values, OrderedDict.empty. simpl.
  rewrite map_map. done.
Qed.

(** *** The row of a record *)

Lemma get_value_exported field_name obj :
  get_value lookup_field strip_tags field_name obj =
    match lookup_field field_name obj with
    | LookupRaises e => Raise e
    | _ => Ok (exported lookup_field strip_tags field_name obj)
    end.
Proof.
  unfold get_value, exported.
  destruct (lookup_field field_name obj) as [[| | |]| |]; done.
Qed.

(** The loop puts the exported value of each column under its label, one
    column after the other, and stops at the first lookup that raises. *)
Lemma get_row_inv fields obj : forall row0 row,
  (forall field_name, field_name ∈ columns fields ->
                      field_name ∈ columns (list_display cl)) ->
  get_row label_for_field lookup_field strip_tags cl fields obj row0 = Ok row ->
  row = foldl (put obj) row0 (columns fields)
  /\ resolvable lookup_field fields obj.
Proof.
  unfold resolvable.
  induction fields as [|a fields IH]; intros row0 row Hsub; cbn [get_row].
  - intros [= <-]. split; [done|]. by intros f e Hin%elem_of_nil.
  - rewrite columns_cons in *. destruct (decide (a = action_checkbox)).
    { intros Hrow. by apply IH. }
    rewrite get_value_exported.
    rewrite headers_getitem by (apply Hsub, list_elem_of_here).
    destruct (lookup_field a obj) as [v| |e] eqn:Hlook; simpl; [| |done].
    all: intros Hrow; apply IH in Hrow as [-> Hres];
      [|by intros f Hf; apply Hsub, list_elem_of_further].
    all: split; [done|].
    all: intros f e' [->|Hin]%elem_of_cons; [congruence|by apply Hres].
Qed.

Lemma get_row_ok fields obj : forall row0,
  (forall field_name, field_name ∈ columns fields ->
                      field_name ∈ columns (list_display cl)) ->
  resolvable lookup_field fields obj ->
  get_row label_for_field lookup_field strip_tags cl fields obj row0 =
    Ok (foldl (put obj) row0 (columns fields)).
Proof.
  unfold resolvable.
  induction fields as [|a fields IH]; intros row0 Hsub Hres; cbn [get_row].
  - done.
  - rewrite columns_cons in *.
    destruct (decide (a = action_checkbox)); [by apply IH|].
    rewrite get_value_exported.
    rewrite headers_getitem by (apply Hsub, list_elem_of_here).
    assert (Ha : forall e, lookup_field a obj <> LookupRaises e).
    { intros e. apply Hres, list_elem_of_here. }
    assert (Hrest : forall f e, f ∈ columns fields ->
                                lookup_field f obj <> LookupRaises e).
    { intros f e Hin. by apply Hres, list_elem_of_further. }
    destruct (lookup_field a obj) as [v| |e] eqn:Hlook; simpl.
    + apply IH; [|done]. by intros f Hf; apply Hsub, list_elem_of_further.
    + apply IH; [|done]. by intros f Hf; apply Hsub, list_elem_of_further.
    + by destruct (Ha e).
Qed.

Lemma row_of_inv obj row :
  row_of obj ∅ = Ok row ->
  row = export_row label_for_field lookup_field strip_tags (list_display cl) obj
  /\ resolvable lookup_field (list_display cl) obj.
Proof. by apply get_row_inv. Qed.

Lemma row_of_ok obj :
  resolvable lookup_field (list_display cl) obj ->
  row_of obj ∅ =
    Ok (export_row label_for_field lookup_field strip_tags (list_display cl) obj).
Proof. by apply get_row_ok. Qed.

(** *** What the row holds under a label *)

Lemma put_lookup_other (obj : record) (fields : list column) :
  forall (row0 : gmap text value) key,
  (forall field_name, field_name ∈ fields -> label_for_field field_name <> key) ->
  foldl (put obj) row0 fields !! key = row0 !! key.
Proof.
  induction fields as [|a fields IH]; intros row0 key Hne; simpl; [done|].
  rewrite IH by (intros f Hf; by apply Hne, list_elem_of_further).
  apply lookup_insert_ne, Hne, list_elem_of_here.
Qed.

(** The last column under a label decides what is under it. *)
Lemma put_lookup_last (obj : record) (pre : list column) (field_name : column)
    (post : list column) (row0 : gmap text value) :
  (forall g, g ∈ post -> label_for_field g <> label_for_field field_name) ->
  foldl (put obj) row0 (pre ++ field_name :: post) !! label_for_field field_name
  = Some (exported lookup_field strip_tags field_name obj).
Proof.
  intros Hpost. rewrite foldl_app. simpl.
  rewrite put_lookup_other by done. apply lookup_insert_eq.
Qed.

(** Whatever is in the row was exported from a column with that label. *)
Lemma put_lookup_inv (obj : record) (fields : list column) :
  forall (row0 : gmap text value) key v,
  foldl (put obj) row0 fields !! key = Some v ->
  row0 !! key = Some v
  \/ exists field_name,
       field_name ∈ fields /\ label_for_field field_name = key
       /\ v = exported lookup_field strip_tags field_name obj.
Proof.
  induction fields as [|a fields IH]; intros row0 key v; simpl; [by left|].
  intros [Hrow|(f & Hin & Hlabel & Hv)]%IH.
  - destruct (decide (label_for_field a = key)) as [<-|Hne].
    + rewrite lookup_insert_eq in Hrow. injection Hrow as <-.
      right. exists a. split; [apply list_elem_of_here|done].
    + rewrite lookup_insert_ne in Hrow by done. by left.
  - right. exists f. split; [by apply list_elem_of_further|done].
Qed.

(** With distinct labels every column finds its own value again. *)
Lemma cells_export_row (d : char) (obj : record) (fields : list column) :
  NoDup (map label_for_field (columns fields)) ->
  cells (csv.mkDictWriter (map label_for_field (columns fields)) d)
        (export_row label_for_field lookup_field strip_tags fields obj)
  = map (fun field_name =>
           smart_text (exported lookup_field strip_tags field_name obj))
        (columns fields).
Proof.
  intros Hnd. unfold cells, export_row. simpl. rewrite map_map.
  apply map_ext_in. intros f Hin%list_elem_of_In.
  apply list_elem_of_split in Hin as (pre & post & Hsplit).
  rewrite Hsplit in *. rewrite put_lookup_last; [done|].
  rewrite map_app in Hnd. simpl in Hnd.
  apply NoDup_app in Hnd as (_ & _ & Hnd). apply NoDup_cons in Hnd as [Hf _].
  intros g Hg Heq. apply Hf. rewrite <- Heq.
  by apply (list_elem_of_fmap_2 label_for_field).
Qed.

End ExportFacts.

(** *** The stream of chunks *)

Section StreamingFacts.
Import ExportableAdmin.
Context {record : Type}.
Variable label_for_field : column -> text.
Variable lookup_field : column -> record -> lookup.
Variable strip_tags : text -> text.
Variable cl : ChangeList record.
Variable extra_context : option (gmap string text).

#[local] Abbreviation step_of :=
  (next label_for_field lookup_field strip_tags cl extra_context).
#[local] Abbreviation rows_of results :=
  (map (export_row label_for_field lookup_field strip_tags (list_display cl))
       results).

(** Once started, the generator hands out what [writerow] returns for the
    rows of the records, as long as the lookups let it. *)
Lemma pull_running results : forall csv,
  Forall (resolvable lookup_field (list_display cl)) results ->
  pull step_of (S (length results)) (Running csv results) =
    let '(res, o) := calls csv (rows_of results) in
    (res, match o with Ok _ => Exhausted | Raise e => Failed e end).
Proof.
  induction results as [|obj results IH]; intros csv Hres; [done|].
  apply Forall_cons in Hres as [Hobj Hres].
  cbn [length map]. rewrite calls_cons.
  change (pull step_of (S (S (length results))) (Running csv (obj :: results)))
    with (match resume label_for_field lookup_field strip_tags cl csv
                  (obj :: results) with
          | Yield a g' =>
              let '(rest, st) := pull step_of (S (length results)) g' in
              (a :: rest, st)
          | StopIteration => ([], Exhausted)
          | Raised e => ([], Failed e)
          end).
  cbn [resume]. rewrite row_of_ok by done. cbn [bind].
  destruct (UnicodeWriter.writerow csv _) as [[chunk csv']|e]; [|done].
  rewrite IH by done. by destruct (calls csv' _).
Qed.

Lemma pull_created n csv :
  UnicodeWriter.__init__ utf_8.codec Echo tt
    (OrderedDict.values (res_headers label_for_field cl))
    (str_delimiter extra_context) = Ok csv ->
  pull step_of (S n) Created = pull step_of (S n) (Running csv (queryset cl)).
Proof. intros Hinit. cbn [pull next]. by rewrite Hinit. Qed.

(** The two row sources of C5 drive the generator the same way. *)
Lemma next_lookup_or_None g :
  next label_for_field (lookup_or_None lookup_field) strip_tags cl extra_context g
  = step_of g.
Proof.
  assert (Hvalue : forall f obj,
            get_value (lookup_or_None lookup_field) strip_tags f obj
            = get_value lookup_field strip_tags f obj).
  { intros f obj. unfold get_value, lookup_or_None.
    by destruct (lookup_field f obj). }
  assert (Hrow : forall fields obj row,
            get_row label_for_field (lookup_or_None lookup_field) strip_tags cl
              fields obj row
            = get_row label_for_field lookup_field strip_tags cl fields obj row).
  { induction fields as [|a fields IH]; intros obj row; cbn [get_row]; [done|].
    case_decide; [done|]. rewrite Hvalue.
    destruct (get_value lookup_field strip_tags a obj); simpl; [|done].
    destruct (OrderedDict.getitem _ a); simpl; done. }
  assert (Hresume : forall csv results,
            resume label_for_field (lookup_or_None lookup_field) strip_tags cl
              csv results
            = resume label_for_field lookup_field strip_tags cl csv results).
  { intros csv [|obj results]; cbn [resume]; [done|]. by rewrite Hrow. }
  destruct g as [|csv results]; cbn [next]; [|apply Hresume].
  destruct (UnicodeWriter.__init__ _ _ _ _ _); [apply Hresume|done].
Qed.

End StreamingFacts.

(** ** Claims on the export view *)

Section ExportClaims.
Import ExportableAdmin.
Context {record : Type}.
Variable label_for_field : column -> text.
Variable lookup_field : column -> record -> lookup.
Variable strip_tags : text -> text.
Variable cl : ChangeList record.
Variable extra_context : option (gmap string text).

(** C10 as amended. When the exported columns carry pairwise distinct
    labels: [action_checkbox] is not among the exported columns, which are
    the other entries of [list_display] in their order; the writer is
    constructed with their labels as field names and its buffer holds the
    line of these labels; the line of every record is made of the exported
    values of these columns, in this order; and the stream is what
    [writerow] returns for these rows, one after the other. *)
Theorem checkbox_is_left_out (d : char) :
  delimiter extra_context = Some [d] ->
  NoDup (map label_for_field (columns (list_display cl))) ->
  let cols := columns (list_display cl) in
  let w := csv.mkDictWriter (map label_for_field cols) d in
  cols = filter (fun field_name => field_name <> action_checkbox) (list_display cl)
  /\ (action_checkbox ∉ cols)
  /\ exists csv,
       UnicodeWriter.__init__ utf_8.codec Echo tt
         (OrderedDict.values (res_headers label_for_field cl))
         (str_delimiter extra_context) = Ok csv
       /\ UnicodeWriter.writer csv = w
       /\ StringIO.getvalue (UnicodeWriter.queue csv)
          = csv.record d (map label_for_field cols)
       /\ (forall obj row,
             get_row label_for_field lookup_field strip_tags cl
               (list_display cl) obj ∅ = Ok row ->
             line w row =
               csv.record d
                 (map (fun field_name =>
                         smart_text (exported lookup_field strip_tags field_name obj))
                      cols))
       /\ (Forall (resolvable lookup_field (list_display cl)) (queryset cl) ->
           streaming_content label_for_field lookup_field strip_tags cl
             extra_context
           = let '(res, o) :=
               calls csv
                 (map (export_row label_for_field lookup_field strip_tags
                         (list_display cl)) (queryset cl)) in
             (res, match o with Ok _ => Exhausted | Raise e => Failed e end)).
Proof.
  intros Hd Hnd cols w. split; [done|]. split.
  { intros [Hne _]%elem_of_columns. done. }
  assert (Hvalues : OrderedDict.values (res_headers label_for_field cl)
                    = map label_for_field cols).
  { apply headers_values. by apply (NoDup_fmap_1 label_for_field). }
  assert (Hstr : str_delimiter extra_context = [d]).
  { unfold str_delimiter. by rewrite Hd. }
  eexists. split.
  { rewrite Hvalues, Hstr. apply UnicodeWriterFacts.init_unfold. }
  split; [done|]. split; [done|]. split.
  - intros obj row Hrow. apply row_of_inv in Hrow as [-> _].
    unfold line. subst w cols. simpl. by rewrite cells_export_row.
  - intros Hres. unfold streaming_content, export_changelist_view.
    erewrite pull_created
      by (rewrite Hvalues, Hstr; apply UnicodeWriterFacts.init_unfold).
    by apply pull_running.
Qed.

End ExportClaims.

(** ** The claims on the accounts *)

Section AccountsClaims.
Import ExportableAdmin.

#[local] Abbreviation content label :=
  (streaming_content label Accounts.lookup_field Accounts.strip_tags
     Accounts.cl Accounts.comma).
#[local] Abbreviation row_for label obj :=
  (get_row label Accounts.lookup_field Accounts.strip_tags Accounts.cl
     Accounts.list_display obj ∅).

Lemma accounts_labels_distinct :
  NoDup (map Accounts.label_for_field (columns Accounts.list_display)).
Proof. apply (bool_decide_unpack _). vm_compute. exact I. Qed.

Lemma accounts_resolvable :
  Forall (resolvable Accounts.lookup_field Accounts.list_display)
         [Accounts.orphan; Accounts.bold].
Proof.
  repeat apply Forall_cons_2; [| |apply Forall_nil_2].
  all: intros f e [Hne Hin]%elem_of_columns.
  all: repeat (apply elem_of_cons in Hin as [->|Hin]); try done.
  all: by apply elem_of_nil in Hin.
Qed.

(** C5, refuted on an account whose owner is gone: its line reads
    [A,None,5], not [A,,5]. *)
Lemma missing_owner_is_the_word_None :
  exists c1 c2,
    content Accounts.label_for_field = ([PyBytes c1; PyBytes c2], Exhausted)
    /\ Accounts.lookup_field (Named "owner") Accounts.orphan = ObjectDoesNotExist
    /\ utf_8.encode (ustr "Name,Owner,Amount" ++ [CR; LF]
                     ++ ustr "A,None,5" ++ [CR; LF]) = Ok c1
    /\ utf_8.encode (ustr "Name,Owner,Amount" ++ [CR; LF]
                     ++ ustr "A,,5" ++ [CR; LF]) <> Ok c1.
Proof.
  do 2 eexists. split; [reflexivity|]. split; [reflexivity|].
  split; [reflexivity|]. vm_compute. discriminate.
Qed.

(** C10, refuted on columns that carry the same label: the three cells of
    the account's line all hold the amount, the last value put under the
    label, and the name is in no cell. *)
Lemma same_label_hides_columns :
  exists row c1 c2,
    row_for Accounts.same_label Accounts.orphan = Ok row
    /\ OrderedDict.values (res_headers Accounts.same_label Accounts.cl)
       = [ustr "Name"; ustr "Name"; ustr "Name"]
    /\ cells (csv.mkDictWriter
                (OrderedDict.values (res_headers Accounts.same_label Accounts.cl)) 44)
             row
       = [ustr "5"; ustr "5"; ustr "5"]
    /\ map (fun field_name =>
              smart_text (exported Accounts.lookup_field Accounts.strip_tags
                            field_name Accounts.orphan))
           (columns Accounts.list_display)
       = [ustr "A"; ustr "None"; ustr "5"]
    /\ content Accounts.same_label = ([PyBytes c1; PyBytes c2], Exhausted)
    /\ utf_8.encode (ustr "Name,Name,Name" ++ [CR; LF]
                     ++ ustr "5,5,5" ++ [CR; LF]) = Ok c1.
Proof.
  do 3 eexists. split; [reflexivity|]. split; [reflexivity|].
  split; [reflexivity|]. split; [reflexivity|]. split; reflexivity.
Qed.

Lemma checkbox_is_left_out_witness :
  columns Accounts.list_display = [Named "name"; Named "owner"; Named "amount"]
  /\ exists chunks,
       content Accounts.label_for_field = (chunks, Exhausted)
       /\ length chunks = 2%nat.
Proof.
  destruct (checkbox_is_left_out Accounts.label_for_field Accounts.lookup_field
              Accounts.strip_tags Accounts.cl Accounts.comma 44)
    as (Hcols & _ & csv & Hinit & _ & _ & _ & Hcontent).
  - reflexivity.
  - exact accounts_labels_distinct.
  - split; [reflexivity|].
    specialize (Hcontent accounts_resolvable).
    compute_lhs Hinit. injection Hinit as <-.
    rewrite Hcontent. eexists. split; reflexivity.
Defined.

End AccountsClaims.

(** * Further properties *)

(** ** What UTF-8 encodes *)

Section Utf8Scalar.
Import utf_8.

Lemma scalar_spec c :
  scalar c = true <-> c < 55296 \/ (57343 < c /\ c < 1114112).
Proof.
  unfold scalar. rewrite orb_true_iff, andb_true_iff, !N.ltb_lt. done.
Qed.

Lemma encode_char_scalar c :
  scalar c = true -> exists b, encode_char c = Ok b /\ b <> [].
Proof.
  intros Hs%scalar_spec. unfold encode_char.
  destruct (c <? 128) eqn:H1; [eauto|].
  destruct (c <? 2048) eqn:H2; [eauto|].
  destruct (c <? 65536) eqn:H3.
  - destruct ((55296 <=? c) && (c <=? 57343)) eqn:H4; [|eauto].
    exfalso. apply andb_prop in H4 as [H4 H5].
    apply N.leb_le in H4, H5. lia.
  - destruct (c <? 1114112) eqn:H4; [eauto|].
    exfalso. apply N.ltb_ge in H3, H4. lia.
Qed.

Lemma encode_char_not_scalar c :
  scalar c = false -> encode_char c = Raise UnicodeEncodeError.
Proof.
  intros Hs. assert (Hn : ~ (c < 55296 \/ (57343 < c /\ c < 1114112))).
  { rewrite <- scalar_spec. by rewrite Hs. }
  unfold encode_char.
  destruct (c <? 128) eqn:H1; [apply N.ltb_lt in H1; lia|].
  destruct (c <? 2048) eqn:H2; [apply N.ltb_lt in H2; lia|].
  destruct (c <? 65536) eqn:H3.
  - apply N.ltb_lt in H3.
    assert (H4 : (55296 <=? c) && (c <=? 57343) = true); [|by rewrite H4].
    apply andb_true_intro. split; apply N.leb_le; lia.
  - apply N.ltb_ge in H3.
    destruct (c <? 1114112) eqn:H4; [apply N.ltb_lt in H4; lia|done].
Qed.

Lemma encode_scalar s :
  forallb scalar s = true -> exists b, encode s = Ok b.
Proof.
  induction s as [|c s IH]; simpl; [eauto|].
  intros [Hc Hs]%andb_prop.
  destruct (encode_char_scalar c Hc) as (bc & -> & _).
  destruct (IH Hs) as (bs & ->). simpl. eauto.
Qed.

Lemma encode_not_scalar s :
  forallb scalar s = false -> encode s = Raise UnicodeEncodeError.
Proof.
  induction s as [|c s IH]; simpl; [done|].
  destruct (scalar c) eqn:Hc; simpl.
  - intros Hs. destruct (encode_char_scalar c Hc) as (bc & -> & _).
    simpl. by rewrite IH.
  - intros _. by rewrite encode_char_not_scalar.
Qed.

Lemma forallb_scalar_padded buf n s :
  forallb scalar (buf ++ repeat NUL n ++ s) = forallb scalar (buf ++ s).
Proof.
  rewrite !forallb_app. f_equal.
  assert (Hn : forallb scalar (repeat NUL n) = true).
  { induction n as [|n IH]; [done|]. simpl. exact IH. }
  by rewrite Hn.
Qed.

End Utf8Scalar.

(** X1. With the UTF-8 encoder a [writerow] ends in exactly one of three
    ways, decided by the keys of the row and by the characters of the text
    in the buffer and of the row's line: a key that is no field name raises
    [ValueError]; otherwise a character that is no Unicode scalar value (a
    surrogate) raises [UnicodeEncodeError]; otherwise the call returns. *)
Theorem writerow_utf_8_outcome (f : Stream)
    (self : UnicodeWriter.t utf_8.codec f) (row : gmap text value) :
  StringIO_wf (UnicodeWriter.queue self) ->
  let w := UnicodeWriter.writer self in
  let known := dom row ⊆ list_to_set (csv.fieldnames w) in
  let encodable :=
    forallb scalar (StringIO.buf (UnicodeWriter.queue self) ++ line w row) in
  (~ known -> UnicodeWriter.writerow self row = Raise ValueError)
  /\ (known -> encodable = false ->
      UnicodeWriter.writerow self row = Raise UnicodeEncodeError)
  /\ (known -> encodable = true ->
      exists res self', UnicodeWriter.writerow self row = Ok (res, self')).
Proof.
  intros Hwf w known encodable. subst w known encodable.
  rewrite UnicodeWriterFacts.writerow_unfold.
  split; [|split].
  - intros Hk. by rewrite decide_False.
  - intros Hk He. rewrite decide_True by done. simpl.
    rewrite StringIOFacts.write_at_end
      by (done || apply csvFacts.record_not_nil).
    simpl. rewrite encode_not_scalar; [done|].
    by rewrite forallb_scalar_padded.
  - intros Hk He. rewrite decide_True by done. simpl.
    rewrite StringIOFacts.write_at_end
      by (done || apply csvFacts.record_not_nil).
    simpl. rewrite <- (forallb_scalar_padded _
                         (StringIO.pos (UnicodeWriter.queue self)
                          - length (StringIO.buf (UnicodeWriter.queue self)))) in He.
    destruct (encode_scalar _ He) as (b & ->).
    simpl. destruct (write f _ b) as [st res]. eauto.
Qed.

Lemma writerow_utf_8_outcome_witness :
  UnicodeWriter.writerow Example.writer0
    {[ ustr "Name" := VText [55296] ]} = Raise UnicodeEncodeError
  /\ UnicodeWriter.writerow Example.writer0
       {[ ustr "Nom" := VText (ustr "A") ]} = Raise ValueError.
Proof.
  assert (Hwf : StringIO_wf (UnicodeWriter.queue Example.writer0)).
  { unfold StringIO_wf. simpl. lia. }
  split.
  - apply (proj1 (proj2 (writerow_utf_8_outcome Echo Example.writer0
                           {[ ustr "Name" := VText [55296] ]} Hwf))).
    + apply (bool_decide_unpack _). vm_compute. exact I.
    + reflexivity.
  - apply (proj1 (writerow_utf_8_outcome Echo Example.writer0
                    {[ ustr "Nom" := VText (ustr "A") ]} Hwf)).
    intros Hk. apply (bool_decide_pack _) in Hk. vm_compute in Hk. exact Hk.
Defined.

(** ** The whole output of a writer *)

Section DocumentFacts.
Implicit Types (self : UnicodeWriter.t utf_8.codec Echo).

Lemma encode_app_inv s1 s2 b :
  utf_8.encode (s1 ++ s2) = Ok b ->
  exists b1 b2, utf_8.encode s1 = Ok b1 /\ utf_8.encode s2 = Ok b2
                /\ b = b1 ++ b2.
Proof.
  rewrite utf_8Facts.encode_app.
  destruct (utf_8.encode s1) as [b1|]; simpl; [|done].
  destruct (utf_8.encode s2) as [b2|]; simpl; [|done].
  intros [= <-]. eauto.
Qed.

(** One call on the passthrough sink: the chunk is the encoding of what
    the buffer holds with the line written behind it. *)
Lemma writerow_Echo self row :
  StringIO_wf (UnicodeWriter.queue self) ->
  UnicodeWriter.writerow self row =
    if decide (dom row ⊆ list_to_set (csv.fieldnames (UnicodeWriter.writer self)))
    then
      do chunk <- utf_8.encode
                    (StringIO.buf (UnicodeWriter.queue self)
                     ++ repeat NUL (StringIO.pos (UnicodeWriter.queue self)
                                    - length (StringIO.buf (UnicodeWriter.queue self)))
                     ++ line (UnicodeWriter.writer self) row);
      Ok (PyBytes chunk,
          UnicodeWriter.mk utf_8.codec Echo
            (StringIO.mk []
               (StringIO.pos (UnicodeWriter.queue self)
                + length (line (UnicodeWriter.writer self) row)))
            (UnicodeWriter.writer self) tt tt)
    else Raise ValueError.
Proof.
  intros Hwf. rewrite UnicodeWriterFacts.writerow_unfold.
  case_decide; [|done]. simpl.
  rewrite StringIOFacts.write_at_end by (done || apply csvFacts.record_not_nil).
  destruct self as [q w [] []]. simpl.
  by destruct (utf_8.encode _) as [chunk|].
Qed.

Lemma calls_drained rows : forall self chunks self',
  StringIO_wf (UnicodeWriter.queue self) ->
  calls self rows = (chunks, Ok self') ->
  Forall is_bytes chunks
  /\ utf_8.encode
       (drained (UnicodeWriter.writer self)
          (StringIO.buf (UnicodeWriter.queue self))
          (StringIO.pos (UnicodeWriter.queue self)) rows)
     = Ok (joined chunks).
Proof.
  induction rows as [|row rows IH]; intros self chunks self' Hwf Hc.
  - injection Hc as <- _. split; [constructor|done].
  - rewrite calls_cons, writerow_Echo in Hc by done.
    case_decide; [|done]. simpl in Hc.
    destruct (utf_8.encode _) as [chunk|] eqn:Henc; simpl in Hc; [|done].
    destruct (calls _ rows) as [rest o] eqn:Hrest.
    injection Hc as <- ->.
    apply IH in Hrest as [Hbytes Hrest]; [|unfold StringIO_wf; simpl; lia].
    simpl in Hrest. split; [by constructor|].
    cbn [drained joined flat_map].
    rewrite !app_assoc, utf_8Facts.encode_app, <- !app_assoc, Henc. simpl.
    fold (joined rest). by rewrite Hrest.
Qed.

Lemma drained_calls rows : forall self b,
  StringIO_wf (UnicodeWriter.queue self) ->
  Forall (fun row : gmap text value =>
            dom row ⊆ list_to_set (csv.fieldnames (UnicodeWriter.writer self)))
         rows ->
  utf_8.encode
    (drained (UnicodeWriter.writer self)
       (StringIO.buf (UnicodeWriter.queue self))
       (StringIO.pos (UnicodeWriter.queue self)) rows) = Ok b ->
  exists chunks self', calls self rows = (chunks, Ok self') /\ joined chunks = b.
Proof.
  induction rows as [|row rows IH]; intros self b Hwf Hdom Henc.
  - injection Henc as <-. by exists [], self.
  - apply Forall_cons in Hdom as [Hrow Hdom].
    cbn [drained] in Henc. rewrite !app_assoc in Henc.
    apply encode_app_inv in Henc as (b1 & b2 & Hb1 & Hb2 & ->).
    rewrite <- !app_assoc in Hb1.
    rewrite calls_cons, writerow_Echo, decide_True, Hb1 by done. simpl.
    edestruct (IH (UnicodeWriter.mk utf_8.codec Echo
                     (StringIO.mk []
                        (StringIO.pos (UnicodeWriter.queue self)
                         + length (line (UnicodeWriter.writer self) row)))
                     (UnicodeWriter.writer self) tt tt) b2)
      as (rest & self' & -> & Hj); [| |exact Hb2|].
    + unfold StringIO_wf. simpl. lia.
    + done.
    + exists (PyBytes b1 :: rest), self'. split; [done|]. simpl.
      fold (joined rest). by rewrite Hj.
Qed.

End DocumentFacts.

(** X2. The chunks a writer on the passthrough sink returns for a sequence
    of rows are byte strings that join to the UTF-8 encoding of one text:
    the header line and the line of the first row, then for every later row
    as many NUL characters as were written before it, followed by its line.
    Conversely, when all keys of the rows are field names and this text can
    be encoded, every call returns. *)
Theorem chunks_join_to_the_document (names : list text) (d : char)
    (rows : list (gmap text value)) (w0 : UnicodeWriter.t utf_8.codec Echo) :
  UnicodeWriter.__init__ utf_8.codec Echo tt names [d] = Ok w0 ->
  let dw := csv.mkDictWriter names d in
  (forall chunks w,
     calls w0 rows = (chunks, Ok w) ->
     Forall is_bytes chunks
     /\ utf_8.encode (document dw rows) = Ok (joined chunks))
  /\ (forall b,
        Forall (fun row : gmap text value => dom row ⊆ list_to_set names) rows ->
        utf_8.encode (document dw rows) = Ok b ->
        exists chunks w, calls w0 rows = (chunks, Ok w) /\ joined chunks = b).
Proof.
  rewrite UnicodeWriterFacts.init_unfold. intros [= <-] dw.
  assert (Hwf : StringIO_wf (StringIO.mk (csv.record d names)
                               (length (csv.record d names)))).
  { unfold StringIO_wf. simpl. lia. }
  split.
  - intros chunks w Hc. by apply calls_drained in Hc.
  - intros b Hdom Henc. by apply drained_calls.
Qed.

Lemma chunks_join_to_the_document_witness :
  exists c1 c2 w,
    calls Example.writer0 [Example.row_A; Example.row_BC]
    = ([PyBytes c1; PyBytes c2], Ok w)
    /\ utf_8.encode Example.produced = Ok (c1 ++ c2).
Proof.
  edestruct (proj1 (chunks_join_to_the_document Example.fieldnames 44
                      [Example.row_A; Example.row_BC] Example.writer0 eq_refl))
    as [_ Hdoc]; [reflexivity|].
  do 3 eexists. split; [reflexivity|].
  etransitivity; [|etransitivity; [exact Hdoc|]]; reflexivity.
Defined.

(** ** Cells that need no quotes *)

Lemma quoted_plain d field : plain d field -> csv.quoted d field = false.
Proof.
  unfold plain, csv.quoted. induction field as [|c field IH]; intros Hp; [done|].
  simpl. rewrite IH by (intros x Hx; by apply Hp, list_elem_of_further).
  destruct (Hp c (list_elem_of_here _ _)) as (Hd & Hq & Hcr & Hlf).
  unfold csv.special. simpl.
  rewrite !(proj2 (N.eqb_neq _ _)) by done. done.
Qed.

Lemma plain_quoted d field : csv.quoted d field = false -> plain d field.
Proof.
  unfold plain, csv.quoted. induction field as [|c field IH]; simpl.
  - by intros _ x Hx%elem_of_nil.
  - intros [Hc Hrest]%orb_false_elim x [->|Hx]%elem_of_cons; [|by apply IH].
    unfold csv.special in Hc. simpl in Hc.
    apply orb_false_elim in Hc as [Hc Hlt].
    apply orb_false_elim in Hc as [Hd Hq].
    apply orb_false_elim in Hlt as [Hcr Hlt].
    apply orb_false_elim in Hlt as [Hlf _].
    by rewrite !N.eqb_neq in *.
Qed.

Lemma join_plain d fields :
  Forall (plain d) fields -> csv.join d fields = separated d fields.
Proof.
  induction 1 as [|field fields Hp Hrest IH]; [done|].
  cbn [csv.join separated]. rewrite IH.
  rewrite csvFacts.join_append_plain by by apply quoted_plain.
  done.
Qed.

(** X3. When no cell of a row holds the delimiter, a quote character or a
    line break, the line written for the row is its cells, unchanged, with
    the delimiter between them and CR LF at the end; the one exception is
    a row of a single empty cell, which is written as a pair of quotes. *)
Theorem plain_cells_are_written_unchanged (w : csv.DictWriter)
    (row : gmap text value) :
  Forall (plain (csv.delimiter w)) (cells w row) ->
  line w row =
    match cells w row with
    | [ [] ] => [csv.quotechar; csv.quotechar]
    | fields => separated (csv.delimiter w) fields
    end ++ [CR; LF].
Proof.
  intros Hp. unfold line, csv.record. rewrite join_plain by done.
  unfold csv.lineterminator. f_equal.
  destruct (cells w row) as [|c1 [|c2 rest]]; [done| |].
  - by destruct c1.
  - cbn [separated]. by destruct c1.
Qed.

Lemma plain_cells_are_written_unchanged_witness :
  line (csv.mkDictWriter Example.fieldnames 44) Example.row_A = Example.line_A.
Proof.
  etransitivity.
  - apply (plain_cells_are_written_unchanged
             (csv.mkDictWriter Example.fieldnames 44) Example.row_A).
    let v := eval vm_compute in
               (cells (csv.mkDictWriter Example.fieldnames 44) Example.row_A) in
    change (Forall (plain 44) v).
    repeat (apply Forall_cons_2; [apply plain_quoted; reflexivity|]).
    apply Forall_nil_2.
  - reflexivity.
Defined.

(** ** How an export ends *)

Lemma encode_raises s e : utf_8.encode s = Raise e -> e = UnicodeEncodeError.
Proof.
  destruct (forallb scalar s) eqn:Hs.
  - destruct (encode_scalar s Hs) as (b & ->). done.
  - rewrite (encode_not_scalar s Hs). by intros [= <-].
Qed.

Lemma getitem_values {K V : Type} `{EqDecision K}
    (d : OrderedDict.t K V) (k : K) (v : V) :
  OrderedDict.getitem d k = Ok v -> v ∈ OrderedDict.values d.
Proof.
  induction d as [|[k0 v0] d IH]; simpl; [done|].
  case_decide.
  - intros [= <-]. apply list_elem_of_here.
  - intros Hv. by apply list_elem_of_further, IH.
Qed.

Section ExportStream.
Import ExportableAdmin.
Context {record : Type}.
Variable label_for_field : column -> text.
Variable lookup_field : column -> record -> lookup.
Variable strip_tags : text -> text.
Variable cl : ChangeList record.
Variable extra_context : option (gmap string text).

#[local] Abbreviation fields := (list_display cl).
#[local] Abbreviation names :=
  (OrderedDict.values (res_headers label_for_field cl)).
#[local] Abbreviation the_row :=
  (export_row label_for_field lookup_field strip_tags fields).
#[local] Abbreviation the_next :=
  (next label_for_field lookup_field strip_tags cl extra_context).
#[local] Abbreviation content :=
  (streaming_content label_for_field lookup_field strip_tags cl extra_context).

Lemma first_error_None (l : list column) obj :
  first_error lookup_field l obj = None <-> resolvable lookup_field l obj.
Proof.
  unfold resolvable. induction l as [|a l IH]; cbn [first_error].
  - split; [|done]. by intros _ f e Hin%elem_of_nil.
  - rewrite columns_cons. case_decide as Hcb; [done|].
    destruct (lookup_field a obj) as [v| |e0] eqn:Ha.
    + rewrite IH. split.
      * intros Hall f e [->|Hin]%elem_of_cons; [congruence|by apply Hall].
      * intros Hall f e Hin. by apply Hall, list_elem_of_further.
    + rewrite IH. split.
      * intros Hall f e [->|Hin]%elem_of_cons; [congruence|by apply Hall].
      * intros Hall f e Hin. by apply Hall, list_elem_of_further.
    + split; [done|].
      intros Hall. by destruct (Hall a e0 (list_elem_of_here _ _)).
Qed.

Lemma first_error_Some (l : list column) obj e :
  first_error lookup_field l obj = Some e ->
  exists field_name,
    field_name ∈ columns l /\ lookup_field field_name obj = LookupRaises e.
Proof.
  induction l as [|a l IH]; cbn [first_error]; [done|].
  rewrite columns_cons. case_decide; [done|].
  destruct (lookup_field a obj) as [v| |e0] eqn:Ha.
  - intros (f & Hin & Hf)%IH. exists f. split; [by apply list_elem_of_further|done].
  - intros (f & Hin & Hf)%IH. exists f. split; [by apply list_elem_of_further|done].
  - intros [= <-]. exists a. split; [apply list_elem_of_here|done].
Qed.

(** The row of a record, or the exception of its first failing lookup. *)
Lemma get_row_first_error (l : list column) obj : forall row0,
  (forall field_name, field_name ∈ columns l -> field_name ∈ columns fields) ->
  get_row label_for_field lookup_field strip_tags cl l obj row0 =
    match first_error lookup_field l obj with
    | Some e => Raise e
    | None =>
        Ok (foldl (fun row field_name =>
                     <[label_for_field field_name :=
                         exported lookup_field strip_tags field_name obj]> row)
                  row0 (columns l))
    end.
Proof.
  induction l as [|a l IH]; intros row0 Hsub; cbn [get_row first_error]; [done|].
  rewrite columns_cons in *. case_decide; [by apply IH|].
  rewrite get_value_exported.
  rewrite headers_getitem by (apply Hsub, list_elem_of_here).
  destruct (lookup_field a obj) as [v| |e0] eqn:Ha; simpl; [| |done].
  all: rewrite IH by (intros f Hf; by apply Hsub, list_elem_of_further).
  all: by destruct (first_error lookup_field l obj).
Qed.

(** The keys of a row are field names of the writer. *)
Lemma export_row_dom obj : dom (the_row obj) ⊆ list_to_set names.
Proof.
  unfold export_row.
  assert (Hgen : forall (l : list column) (row0 : gmap text value),
            (forall f, f ∈ l -> f ∈ columns fields) ->
            dom row0 ⊆ list_to_set names ->
            dom (foldl (fun row field_name =>
                          <[label_for_field field_name :=
                              exported lookup_field strip_tags field_name obj]> row)
                       row0 l) ⊆ list_to_set names).
  { induction l as [|a l IH]; intros row0 Hsub Hdom; [done|]. simpl.
    apply IH; [intros f Hf; by apply Hsub, list_elem_of_further|].
    rewrite dom_insert. apply union_least; [|done].
    apply singleton_subseteq_l, elem_of_list_to_set.
    eapply getitem_values, headers_getitem, Hsub, list_elem_of_here. }
  apply Hgen; [done|]. rewrite dom_empty. apply empty_subseteq.
Qed.

(** One step of the running generator. *)
Lemma resume_cons (csv : UnicodeWriter.t utf_8.codec Echo) obj results :
  csv.fieldnames (UnicodeWriter.writer csv) = names ->
  StringIO_wf (UnicodeWriter.queue csv) ->
  resume label_for_field lookup_field strip_tags cl csv (obj :: results) =
    match first_error lookup_field fields obj with
    | Some e => Raised e
    | None =>
        match
          utf_8.encode
            (StringIO.buf (UnicodeWriter.queue csv)
             ++ repeat NUL (StringIO.pos (UnicodeWriter.queue csv)
                            - length (StringIO.buf (UnicodeWriter.queue csv)))
             ++ line (UnicodeWriter.writer csv) (the_row obj))
        with
        | Ok chunk =>
            Yield (PyBytes chunk)
              (Running
                 (UnicodeWriter.mk utf_8.codec Echo
                    (StringIO.mk []
                       (StringIO.pos (UnicodeWriter.queue csv)
                        + length (line (UnicodeWriter.writer csv) (the_row obj))))
                    (UnicodeWriter.writer csv) tt tt)
                 results)
        | Raise e => Raised e
        end
    end.
Proof.
  intros Hnames Hwf. cbn [resume]. rewrite get_row_first_error by done.
  destruct (first_error lookup_field fields obj); [done|]. cbn [bind].
  fold (the_row obj). rewrite writerow_Echo by done.
  rewrite decide_True by (rewrite Hnames; apply export_row_dom).
  by destruct (utf_8.encode _).
Qed.

(** How a started export ends, by induction on the records to come. *)
Lemma running_ends results : forall (csv : UnicodeWriter.t utf_8.codec Echo) chunks st,
  csv.fieldnames (UnicodeWriter.writer csv) = names ->
  StringIO_wf (UnicodeWriter.queue csv) ->
  pull the_next (S (length results)) (Running csv results) = (chunks, st) ->
  Forall is_bytes chunks
  /\ ((st = Exhausted /\ length chunks = length results
       /\ Forall (resolvable lookup_field fields) results)
      \/ (exists e, st = Failed e /\ (length chunks < length results)%nat
          /\ (e = UnicodeEncodeError
              \/ exists obj field_name,
                   obj ∈ results /\ field_name ∈ columns fields
                   /\ lookup_field field_name obj = LookupRaises e))).
Proof.
  induction results as [|obj results IH]; intros csv chunks st Hnames Hwf.
  - intros [= <- <-]. split; [constructor|]. left. by repeat split.
  - change (pull the_next (S (length (obj :: results))) (Running csv (obj :: results)))
      with (match resume label_for_field lookup_field strip_tags cl csv
                    (obj :: results) with
            | Yield a g' =>
                let '(rest, st) := pull the_next (length (obj :: results)) g' in
                (a :: rest, st)
            | StopIteration => ([], Exhausted)
            | Raised e => ([], Failed e)
            end).
    rewrite resume_cons by done.
    destruct (first_error lookup_field fields obj) as [e|] eqn:Herr.
    { intros [= <- <-]. split; [constructor|]. right. exists e.
      split; [done|]. split; [simpl; lia|]. right.
      apply first_error_Some in Herr as (f & Hin & Hf).
      exists obj, f. split; [apply list_elem_of_here|done]. }
    destruct (utf_8.encode _) as [chunk|e] eqn:Henc.
    2: { intros [= <- <-]. split; [constructor|]. right. exists e.
         split; [done|]. split; [simpl; lia|]. left. by eapply encode_raises. }
    cbn [length].
    destruct (pull the_next (S (length results)) _) as [rest st'] eqn:Hrest.
    intros [= <- <-].
    apply IH in Hrest as [Hbytes Hend]; [| done | unfold StringIO_wf; simpl; lia].
    split; [by constructor|].
    destruct Hend as [(-> & Hlen & Hres)|(e & -> & Hlen & Hcause)].
    + left. split; [done|]. split; [simpl; by rewrite Hlen|].
      constructor; [by apply first_error_None|done].
    + right. exists e. split; [done|]. split; [simpl; lia|].
      destruct Hcause as [->|(o & f & Ho & Hf)]; [by left|right].
      exists o, f. split; [by apply list_elem_of_further|done].
Qed.

Lemma init_names d :
  delimiter extra_context = Some [d] ->
  UnicodeWriter.__init__ utf_8.codec Echo tt names (str_delimiter extra_context)
  = Ok (UnicodeWriter.mk utf_8.codec Echo
          (StringIO.mk (csv.record d names) (length (csv.record d names)))
          (csv.mkDictWriter names d) tt tt).
Proof.
  intros Hd. unfold str_delimiter. rewrite Hd.
  exact (UnicodeWriterFacts.init_unfold (codec:=utf_8.codec) (f:=Echo) tt names d).
Qed.

Lemma init_bad_delimiter :
  (forall d, delimiter extra_context <> Some [d]) ->
  UnicodeWriter.__init__ utf_8.codec Echo tt names (str_delimiter extra_context)
  = Raise TypeError.
Proof.
  intros Hd. unfold UnicodeWriter.__init__, str_delimiter.
  destruct (delimiter extra_context) as [[|c [|c' s]]|] eqn:Hdel; try done.
  by destruct (Hd c).
Qed.

(** X4. An export of no records sends nothing, not even the header line:
    with a one-character delimiter the stream ends at once without a
    chunk. *)
Theorem empty_queryset_exports_nothing (d : char) :
  queryset cl = [] ->
  delimiter extra_context = Some [d] ->
  content = ([], Exhausted).
Proof.
  intros Hq Hd. unfold streaming_content, export_changelist_view,
    generate_response.
  erewrite pull_created by by apply init_names.
  by rewrite Hq.
Qed.

(** X5. When [extra_context] carries no [export_delimiter], or one that is
    not a single character, the stream breaks with [TypeError] before any
    chunk, whatever the records are. *)
Theorem bad_delimiter_breaks_the_stream :
  (forall d, delimiter extra_context <> Some [d]) ->
  content = ([], Failed TypeError).
Proof.
  intros Hd. unfold streaming_content, export_changelist_view,
    generate_response. cbn [pull next].
  by rewrite init_bad_delimiter.
Qed.

(** X6. However an export goes, its stream is never left suspended; every
    chunk is a byte string; a stream that ends has one chunk per record of
    the queryset, and a stream that breaks has fewer chunks than records
    (none, if there are no records). *)
Theorem export_sends_one_chunk_per_record (chunks : list object)
    (st : status generator) :
  content = (chunks, st) ->
  Forall is_bytes chunks
  /\ ((st = Exhausted /\ length chunks = length (queryset cl))
      \/ (exists e, st = Failed e
          /\ (length chunks < length (queryset cl) \/ chunks = [])%nat)).
Proof.
  unfold streaming_content, export_changelist_view, generate_response.
  destruct (delimiter extra_context) as [[|d [|d' s]]|] eqn:Hdel.
  2: { erewrite pull_created by by apply init_names.
       intros Hpull. apply running_ends in Hpull as [Hb Hend];
         [|done|unfold StringIO_wf; simpl; lia].
       split; [done|].
       destruct Hend as [(-> & Hlen & _)|(e & -> & Hlen & _)]; [by left|].
       right. exists e. split; [done|by left]. }
  all: cbn [pull next]; rewrite init_bad_delimiter
         by (intros d0; congruence).
  all: intros [= <- <-]; split; [constructor|]; right; exists TypeError;
         split; [done|by right].
Qed.

(** X7. An export breaks for one of three reasons only: the delimiter is
    not a single character ([TypeError], before any chunk); a lookup of an
    exported column raised the exception for one of the records; or the
    text could not be encoded ([UnicodeEncodeError]). The row the view
    builds never makes the writer raise on its keys. *)
Theorem export_breaks_for_three_reasons (chunks : list object) (e : exn) :
  content = (chunks, Failed e) ->
  (e = TypeError /\ chunks = []
   /\ forall d, delimiter extra_context <> Some [d])
  \/ (exists obj field_name,
        obj ∈ queryset cl /\ field_name ∈ columns fields
        /\ lookup_field field_name obj = LookupRaises e)
  \/ e = UnicodeEncodeError.
Proof.
  unfold streaming_content, export_changelist_view, generate_response.
  destruct (delimiter extra_context) as [[|d [|d' s]]|] eqn:Hdel.
  2: { erewrite pull_created by by apply init_names.
       intros Hpull. apply running_ends in Hpull as [_ Hend];
         [|done|unfold StringIO_wf; simpl; lia].
       destruct Hend as [(? & _)|(e' & [= <-] & _ & Hcause)]; [done|].
       destruct Hcause as [->|Hlookup]; [by right; right|by right; left]. }
  all: cbn [pull next]; rewrite init_bad_delimiter
         by (intros d0; congruence).
  all: intros [= <- <-]; left; split; [done|]; split; [done|].
  all: intros d0; congruence.
Qed.

(** X8. The stream stops at the first record with a lookup that raises:
    the client has received what the writer returned for the records
    before it, and the stream breaks with the exception of that lookup (or
    earlier, with the exception of the writer). The records after it are
    not looked at. *)
Theorem export_stops_at_the_first_failing_lookup (d : char)
    (good : list record) (obj : record) (rest : list record) (e : exn) :
  delimiter extra_context = Some [d] ->
  queryset cl = good ++ obj :: rest ->
  Forall (resolvable lookup_field fields) good ->
  first_error lookup_field fields obj = Some e ->
  exists csv,
    UnicodeWriter.__init__ utf_8.codec Echo tt names (str_delimiter extra_context)
    = Ok csv
    /\ content =
         let '(res, o) := calls csv (map the_row good) in
         (res, Failed match o with Ok _ => e | Raise e' => e' end).
Proof.
  intros Hd Hq Hgood Herr. eexists. split; [by apply init_names|].
  unfold streaming_content, export_changelist_view, generate_response.
  erewrite pull_created by by apply init_names.
  rewrite Hq. clear Hq.
  generalize (UnicodeWriter.mk utf_8.codec Echo
                (StringIO.mk (csv.record d names) (length (csv.record d names)))
                (csv.mkDictWriter names d) tt tt).
  induction Hgood as [|g good Hg Hgood IH]; intros csv.
  - simpl. rewrite get_row_first_error, Herr by done. done.
  - cbn [app length map]. rewrite calls_cons.
    change (pull the_next (S (S (length (good ++ obj :: rest))))
              (Running csv (g :: good ++ obj :: rest)))
      with (match resume label_for_field lookup_field strip_tags cl csv
                    (g :: good ++ obj :: rest) with
            | Yield a g' =>
                let '(chunks, st) :=
                  pull the_next (S (length (good ++ obj :: rest))) g' in
                (a :: chunks, st)
            | StopIteration => ([], Exhausted)
            | Raised e => ([], Failed e)
            end).
    cbn [resume]. rewrite row_of_ok by done. cbn [bind].
    destruct (UnicodeWriter.writerow csv _) as [[chunk csv']|e']; [|done].
    rewrite IH. by destruct (calls csv' _).
Qed.

End ExportStream.

Section ExportStreamWitnesses.
Import ExportableAdmin.

Lemma empty_queryset_exports_nothing_witness :
  streaming_content Accounts.label_for_field Accounts.lookup_field
    Accounts.strip_tags cl_empty Accounts.comma = ([], Exhausted).
Proof.
  apply (empty_queryset_exports_nothing _ _ _ cl_empty Accounts.comma 44);
    reflexivity.
Defined.

Lemma bad_delimiter_breaks_the_stream_witness :
  streaming_content Accounts.label_for_field Accounts.lookup_field
    Accounts.strip_tags Accounts.cl None = ([], Failed TypeError)
  /\ streaming_content Accounts.label_for_field Accounts.lookup_field
       Accounts.strip_tags Accounts.cl two_characters = ([], Failed TypeError).
Proof.
  split; apply bad_delimiter_breaks_the_stream.
  - intros d Hd. discriminate Hd.
  - intros d Hd. compute_lhs Hd. discriminate Hd.
Defined.

Lemma export_sends_one_chunk_per_record_witness :
  exists chunks,
    streaming_content Accounts.label_for_field Accounts.lookup_field
      Accounts.strip_tags Accounts.cl Accounts.comma = (chunks, Exhausted)
    /\ Forall is_bytes chunks /\ length chunks = 2%nat.
Proof.
  edestruct (export_sends_one_chunk_per_record Accounts.label_for_field
               Accounts.lookup_field Accounts.strip_tags Accounts.cl
               Accounts.comma) as [Hb Hend]; [reflexivity|].
  destruct Hend as [[_ Hlen]|(e & He & _)]; [|compute_lhs He; discriminate He].
  eexists. split; [reflexivity|]. split; [exact Hb|exact Hlen].
Defined.

Lemma export_breaks_for_three_reasons_witness :
  exists chunks obj field_name,
    streaming_content Accounts.label_for_field lookup_strict
      Accounts.strip_tags cl_strict Accounts.comma
    = (chunks, Failed (OtherError "AttributeError"))
    /\ obj ∈ queryset cl_strict
    /\ lookup_strict field_name obj = LookupRaises (OtherError "AttributeError").
Proof.
  edestruct (export_breaks_for_three_reasons Accounts.label_for_field
               lookup_strict Accounts.strip_tags cl_strict Accounts.comma)
    as [(He & _)|[(obj & f & Hobj & _ & Hf)|He]]; [reflexivity| | |].
  - discriminate He.
  - eexists. exists obj, f. split; [reflexivity|]. split; [exact Hobj|exact Hf].
  - discriminate He.
Defined.

Lemma export_stops_at_the_first_failing_lookup_witness :
  exists chunk,
    streaming_content Accounts.label_for_field lookup_strict
      Accounts.strip_tags cl_strict Accounts.comma
    = ([PyBytes chunk], Failed (OtherError "AttributeError")).
Proof.
  destruct (export_stops_at_the_first_failing_lookup Accounts.label_for_field
              lookup_strict Accounts.strip_tags cl_strict Accounts.comma 44
              [Accounts.bold] Accounts.orphan [] (OtherError "AttributeError"))
    as (csv & Hinit & Hcontent).
  - reflexivity.
  - reflexivity.
  - apply Forall_cons_2; [|apply Forall_nil_2].
    apply first_error_None. reflexivity.
  - reflexivity.
  - compute_lhs Hinit. injection Hinit as <-.
    rewrite Hcontent. eexists. reflexivity.
Defined.

End ExportStreamWitnesses.

(** ** The line of a record in the document *)

Section RecordLine.
Import ExportableAdmin.
Context {record : Type}.
Variable label_for_field : column -> text.
Variable lookup_field : column -> record -> lookup.
Variable strip_tags : text -> text.
Variable cl : ChangeList record.
Variable extra_context : option (gmap string text).

#[local] Abbreviation fields := (list_display cl).
#[local] Abbreviation names :=
  (OrderedDict.values (res_headers label_for_field cl)).
#[local] Abbreviation the_row :=
  (export_row label_for_field lookup_field strip_tags fields).
#[local] Abbreviation row_of :=
  (get_row label_for_field lookup_field strip_tags cl fields).
#[local] Abbreviation the_next :=
  (next label_for_field lookup_field strip_tags cl extra_context).
#[local] Abbreviation content :=
  (streaming_content label_for_field lookup_field strip_tags cl extra_context).

(** The chunk a running export yields for a record it gets as far as. *)
Lemma running_chunk (before : list record) :
  forall (csv : UnicodeWriter.t utf_8.codec Echo) obj after chunks st,
  csv.fieldnames (UnicodeWriter.writer csv) = names ->
  StringIO_wf (UnicodeWriter.queue csv) ->
  pull the_next (S (length (before ++ obj :: after)))
       (Running csv (before ++ obj :: after)) = (chunks, st) ->
  (length before < length chunks)%nat ->
  Forall (resolvable lookup_field fields) (before ++ [obj])
  /\ exists b,
       chunks !! length before = Some (PyBytes b)
       /\ utf_8.encode
            (match before with
             | [] =>
                 StringIO.buf (UnicodeWriter.queue csv)
                 ++ repeat NUL (StringIO.pos (UnicodeWriter.queue csv)
                                - length (StringIO.buf (UnicodeWriter.queue csv)))
             | _ =>
                 repeat NUL (StringIO.pos (UnicodeWriter.queue csv)
                             + lines_length (UnicodeWriter.writer csv)
                                 (map the_row before))
             end ++ line (UnicodeWriter.writer csv) (the_row obj)) = Ok b.
Proof.
  induction before as [|a before IH]; intros csv obj after chunks st Hnames Hwf.
  - cbn [app length].
    change (pull the_next (S (S (length after))) (Running csv (obj :: after)))
      with (match resume label_for_field lookup_field strip_tags cl csv
                    (obj :: after) with
            | Yield c g' =>
                let '(rest, st) := pull the_next (S (length after)) g' in
                (c :: rest, st)
            | StopIteration => ([], Exhausted)
            | Raised e => ([], Failed e)
            end).
    rewrite resume_cons by done.
    destruct (first_error lookup_field fields obj) as [e|] eqn:Herr.
    { intros [= <- <-] Hlen. simpl in Hlen. lia. }
    destruct (utf_8.encode _) as [chunk|e] eqn:Henc.
    2: { intros [= <- <-] Hlen. simpl in Hlen. lia. }
    destruct (pull the_next (S (length after)) _) as [rest st'].
    intros [= <- <-] _. split.
    + apply Forall_cons_2; [by apply first_error_None|apply Forall_nil_2].
    + exists chunk. split; [done|]. by rewrite <- app_assoc.
  - cbn [app length].
    change (pull the_next (S (S (length (before ++ obj :: after))))
              (Running csv (a :: before ++ obj :: after)))
      with (match resume label_for_field lookup_field strip_tags cl csv
                    (a :: before ++ obj :: after) with
            | Yield c g' =>
                let '(rest, st) :=
                  pull the_next (S (length (before ++ obj :: after))) g' in
                (c :: rest, st)
            | StopIteration => ([], Exhausted)
            | Raised e => ([], Failed e)
            end).
    rewrite resume_cons by done.
    destruct (first_error lookup_field fields a) as [e|] eqn:Herr.
    { intros [= <- <-] Hlen. simpl in Hlen. lia. }
    destruct (utf_8.encode _) as [chunk|e] eqn:Henc.
    2: { intros [= <- <-] Hlen. simpl in Hlen. lia. }
    destruct (pull the_next (S (length (before ++ obj :: after))) _)
      as [rest st'] eqn:Hrest.
    intros [= <- <-] Hlen. cbn [length] in Hlen.
    apply IH in Hrest as [Hres (b & Hb & Hencb)];
      [|done|unfold StringIO_wf; simpl; lia|lia].
    split.
    + apply Forall_cons_2; [by apply first_error_None|done].
    + exists b. split; [done|]. cbn [UnicodeWriter.queue UnicodeWriter.writer
        StringIO.buf StringIO.pos] in Hencb.
      rewrite <- Hencb. f_equal. f_equal.
      unfold lines_length. cbn [map sum_list length].
      destruct before as [|a' before]; cbn [map sum_list app length].
      * f_equal. unfold id. lia.
      * f_equal. unfold id. lia.
Qed.

(** The chunk of a record in the stream of an export that gets as far as
    the record. *)
Lemma record_chunk (d : char) (before : list record) (obj : record)
    (after : list record) (chunks : list object) (st : status generator) :
  delimiter extra_context = Some [d] ->
  queryset cl = before ++ obj :: after ->
  content = (chunks, st) ->
  (length before < length chunks)%nat ->
  exists rows b,
    Forall2 (fun o row => row_of o ∅ = Ok row) before rows
    /\ row_of obj ∅ = Ok (the_row obj)
    /\ chunks !! length before = Some (PyBytes b)
    /\ utf_8.encode (lead (csv.mkDictWriter names d) rows
                     ++ csv.record d (cells (csv.mkDictWriter names d) (the_row obj)))
       = Ok b.
Proof.
  intros Hd Hq. unfold streaming_content, export_changelist_view,
    generate_response.
  erewrite pull_created by by apply init_names.
  rewrite Hq. intros Hpull Hlen.
  apply running_chunk in Hpull as [Hres (b & Hb & Henc)];
    [|done|unfold StringIO_wf; simpl; lia|done].
  apply Forall_app in Hres as [Hbefore Hobj].
  apply Forall_cons in Hobj as [Hobj _].
  exists (map the_row before), b. split.
  { clear -Hbefore. induction Hbefore as [|o l Ho Hl IH]; constructor; [|done].
    by apply row_of_ok. }
  split; [by apply row_of_ok|]. split; [done|].
  rewrite <- Henc. cbn [UnicodeWriter.queue UnicodeWriter.writer StringIO.buf
    StringIO.pos]. unfold line. cbn [csv.delimiter].
  f_equal. f_equal. unfold lead, header_line. cbn [csv.delimiter csv.fieldnames].
  destruct before as [|a before]; cbn [map].
  - by rewrite Nat.sub_diag, app_nil_r.
  - done.
Qed.

(** Where the value of a column is in the row and in the line, when no
    later column carries its label. *)
Lemma cells_under_label (d : char) (obj : record) (pre : list column)
    (field_name : column) (post : list column) (row : gmap text value) :
  fields = pre ++ field_name :: post ->
  field_name <> action_checkbox ->
  (forall g, g ∈ columns post ->
             label_for_field g <> label_for_field field_name) ->
  row_of obj ∅ = Ok row ->
  row !! label_for_field field_name
    = Some (exported lookup_field strip_tags field_name obj)
  /\ forall j, names !! j = Some (label_for_field field_name) ->
       cells (csv.mkDictWriter names d) row !! j
       = Some (smart_text (exported lookup_field strip_tags field_name obj)).
Proof.
  intros Hsplit Hf Hpost Hrow. apply row_of_inv in Hrow as [-> _].
  assert (Hv : the_row obj !! label_for_field field_name
               = Some (exported lookup_field strip_tags field_name obj)).
  { unfold export_row.
    rewrite Hsplit, columns_app, columns_cons, decide_False by done.
    by rewrite put_lookup_last. }
  split; [done|]. intros j Hj. unfold cells. cbn [csv.fieldnames].
  change (map ?f ?l) with (f <$> l).
  by rewrite list_lookup_fmap, Hj; simpl; rewrite Hv.
Qed.

(** The label of an exported column is in the header. *)
Lemma label_in_header (field_name : column) :
  field_name ∈ columns fields ->
  exists j, names !! j = Some (label_for_field field_name).
Proof.
  intros Hin. apply list_elem_of_lookup_1.
  by eapply getitem_values, headers_getitem.
Qed.

(** The chunk and the cells together. *)
Lemma record_line (d : char) (before : list record) (obj : record)
    (after : list record) (pre : list column) (field_name : column)
    (post : list column) (chunks : list object) (st : status generator) :
  delimiter extra_context = Some [d] ->
  queryset cl = before ++ obj :: after ->
  fields = pre ++ field_name :: post ->
  field_name <> action_checkbox ->
  (forall g, g ∈ columns post ->
             label_for_field g <> label_for_field field_name) ->
  content = (chunks, st) ->
  (length before < length chunks)%nat ->
  exists rows row b,
    Forall2 (fun o r => row_of o ∅ = Ok r) before rows
    /\ row_of obj ∅ = Ok row
    /\ (forall j, names !! j = Some (label_for_field field_name) ->
                  cells (csv.mkDictWriter names d) row !! j
                  = Some (smart_text
                            (exported lookup_field strip_tags field_name obj)))
    /\ chunks !! length before = Some (PyBytes b)
    /\ utf_8.encode (lead (csv.mkDictWriter names d) rows
                     ++ csv.record d (cells (csv.mkDictWriter names d) row))
       = Ok b.
Proof.
  intros Hd Hq Hsplit Hf Hpost Hc Hlen.
  destruct (record_chunk d before obj after chunks st Hd Hq Hc Hlen)
    as (rows & b & Hrows & Hrow & Hb & Henc).
  exists rows, (the_row obj), b. repeat split; try done.
  by apply (cells_under_label d obj pre field_name post).
Qed.

(** C5 as amended. With a one-character delimiter: a lookup that raises
    [ObjectDoesNotExist] is caught in the view and gives the value [None];
    the export goes on exactly as for a row source whose lookup returned
    [None] there, and a stream that breaks does so on an encoding error or
    on another exception of a lookup, never on this one. When no later
    exported column carries the label of the field, the row handed to the
    writer holds [None] under the label, the cell under the label in the
    line of the record is the word None, and the chunk the stream delivers
    for the record is the encoding of this line behind the header line or
    the NUL characters. *)
Theorem missing_record_is_exported_as_None (d : char)
    (before : list record) (obj : record) (after : list record) :
  delimiter extra_context = Some [d] ->
  queryset cl = before ++ obj :: after ->
  let w := csv.mkDictWriter names d in
  (forall n g,
     pull the_next n g
     = pull (next label_for_field (lookup_or_None lookup_field) strip_tags cl
               extra_context) n g)
  /\ (forall chunks e,
        content = (chunks, Failed e) ->
        e = UnicodeEncodeError
        \/ exists obj' g,
             obj' ∈ queryset cl /\ g ∈ columns fields
             /\ lookup_field g obj' = LookupRaises e)
  /\ (forall (pre : list column) field_name (post : list column),
        fields = pre ++ field_name :: post ->
        field_name <> action_checkbox ->
        (forall g, g ∈ columns post ->
                   label_for_field g <> label_for_field field_name) ->
        lookup_field field_name obj = ObjectDoesNotExist ->
        get_value lookup_field strip_tags field_name obj = Ok VNone
        /\ (exists j, names !! j = Some (label_for_field field_name))
        /\ (forall row,
              row_of obj ∅ = Ok row ->
              row !! label_for_field field_name = Some VNone)
        /\ (forall chunks st,
              content = (chunks, st) ->
              (length before < length chunks)%nat ->
              exists rows row b,
                Forall2 (fun o r => row_of o ∅ = Ok r) before rows
                /\ row_of obj ∅ = Ok row
                /\ (forall j, names !! j = Some (label_for_field field_name) ->
                              cells w row !! j = Some (ustr "None"))
                /\ chunks !! length before = Some (PyBytes b)
                /\ utf_8.encode (lead w rows ++ csv.record d (cells w row))
                   = Ok b)).
Proof.
  intros Hd Hq w. subst w. split; [|split].
  - induction n as [|n IH]; intros g; [done|]. cbn [pull].
    rewrite next_lookup_or_None.
    destruct (the_next g) as [a g'| |e]; [|done|done]. by rewrite IH.
  - intros chunks e. unfold streaming_content, export_changelist_view,
      generate_response.
    erewrite pull_created by by apply init_names.
    intros Hpull. apply running_ends in Hpull as [_ Hend];
      [|done|unfold StringIO_wf; simpl; lia].
    destruct Hend as [(? & _)|(e' & [= <-] & _ & Hcause)]; [done|].
    destruct Hcause as [->|Hlookup]; [by left|by right].
  - intros pre f post Hsplit Hf Hpost Hlook.
    assert (Hexp : exported lookup_field strip_tags f obj = VNone).
    { unfold exported. by rewrite Hlook. }
    split; [unfold get_value; by rewrite Hlook|]. split.
    { apply label_in_header. rewrite Hsplit, columns_app, columns_cons,
        decide_False by done.
      apply elem_of_app. right. apply list_elem_of_here. }
    split.
    + intros row Hrow. rewrite <- Hexp.
      by apply (cells_under_label d obj pre f post).
    + intros chunks st Hc Hlen.
      destruct (record_line d before obj after pre f post chunks st)
        as (rows & row & b & Hrows & Hrow & Hcells & Hb & Henc); try done.
      exists rows, row, b. repeat split; try done.
      intros j Hj. rewrite (Hcells j Hj), Hexp. done.
Qed.

(** C8 as amended. With a one-character delimiter: the view strips the
    tags of every string value a lookup returns, and every value of the row
    it hands to the writer is the value of a column with that label, with
    its tags stripped when the lookup returned a string. When no later
    exported column carries the label of the column, the row holds the
    stripped string under the label, the cell under the label in the line
    of the record is the stripped string, and the chunk the stream delivers
    for the record is the encoding of this line behind the header line or
    the NUL characters. *)
Theorem strings_are_stripped_before_the_writer (d : char)
    (before : list record) (obj : record) (after : list record) :
  delimiter extra_context = Some [d] ->
  queryset cl = before ++ obj :: after ->
  let w := csv.mkDictWriter names d in
  (forall field_name s,
     lookup_field field_name obj = Found (VText s) ->
     get_value lookup_field strip_tags field_name obj
     = Ok (VText (strip_tags s)))
  /\ (forall row key v,
        row_of obj ∅ = Ok row ->
        row !! key = Some v ->
        exists field_name,
          field_name ∈ columns fields
          /\ label_for_field field_name = key
          /\ get_value lookup_field strip_tags field_name obj = Ok v
          /\ forall s, lookup_field field_name obj = Found (VText s) ->
                       v = VText (strip_tags s))
  /\ (forall (pre : list column) field_name (post : list column) s,
        fields = pre ++ field_name :: post ->
        field_name <> action_checkbox ->
        (forall g, g ∈ columns post ->
                   label_for_field g <> label_for_field field_name) ->
        lookup_field field_name obj = Found (VText s) ->
        (exists j, names !! j = Some (label_for_field field_name))
        /\ (forall row,
              row_of obj ∅ = Ok row ->
              row !! label_for_field field_name = Some (VText (strip_tags s)))
        /\ (forall chunks st,
              content = (chunks, st) ->
              (length before < length chunks)%nat ->
              exists rows row b,
                Forall2 (fun o r => row_of o ∅ = Ok r) before rows
                /\ row_of obj ∅ = Ok row
                /\ (forall j, names !! j = Some (label_for_field field_name) ->
                              cells w row !! j = Some (strip_tags s))
                /\ chunks !! length before = Some (PyBytes b)
                /\ utf_8.encode (lead w rows ++ csv.record d (cells w row))
                   = Ok b)).
Proof.
  intros Hd Hq w. subst w. split; [|split].
  - intros f s Hlook. unfold get_value. by rewrite Hlook.
  - intros row key v Hrow Hv. apply row_of_inv in Hrow as [-> Hres].
    unfold export_row in Hv.
    apply put_lookup_inv in Hv as [Hv|(f & Hin & Hlabel & ->)].
    { by rewrite lookup_empty in Hv. }
    exists f. split; [done|]. split; [done|]. split.
    + rewrite get_value_exported.
      destruct (lookup_field f obj) as [v| |e] eqn:Hlook; [done|done|].
      by destruct (Hres f e Hin).
    + intros s Hs. unfold exported. by rewrite Hs.
  - intros pre f post s Hsplit Hf Hpost Hlook.
    assert (Hexp : exported lookup_field strip_tags f obj
                   = VText (strip_tags s)).
    { unfold exported. by rewrite Hlook. }
    split.
    { apply label_in_header. rewrite Hsplit, columns_app, columns_cons,
        decide_False by done.
      apply elem_of_app. right. apply list_elem_of_here. }
    split.
    + intros row Hrow. rewrite <- Hexp.
      by apply (cells_under_label d obj pre f post).
    + intros chunks st Hc Hlen.
      destruct (record_line d before obj after pre f post chunks st)
        as (rows & row & b & Hrows & Hrow & Hcells & Hb & Henc); try done.
      exists rows, row, b. repeat split; try done.
      intros j Hj. rewrite (Hcells j Hj), Hexp. done.
Qed.

End RecordLine.

Section RecordLineWitnesses.
Import ExportableAdmin.

#[local] Abbreviation accounts label :=
  (streaming_content label Accounts.lookup_field Accounts.strip_tags
     Accounts.cl Accounts.comma).

(** C5 on the account whose owner is gone: the first chunk of the export
    is the header line and the line [A,None,5]. *)
Lemma missing_record_is_exported_as_None_witness :
  exists chunks st b,
    accounts Accounts.label_for_field = (chunks, st)
    /\ Accounts.lookup_field (Named "owner") Accounts.orphan
       = ObjectDoesNotExist
    /\ chunks !! 0%nat = Some (PyBytes b)
    /\ utf_8.encode (ustr "Name,Owner,Amount" ++ [CR; LF]
                     ++ ustr "A,None,5" ++ [CR; LF]) = Ok b.
Proof.
  destruct (missing_record_is_exported_as_None Accounts.label_for_field
              Accounts.lookup_field Accounts.strip_tags Accounts.cl
              Accounts.comma 44 [] Accounts.orphan [Accounts.bold])
    as (_ & _ & Hfield); [reflexivity|reflexivity|].
  destruct (Hfield [action_checkbox; Named "name"] (Named "owner")
              [Named "amount"]) as (_ & _ & _ & Hdoc).
  - reflexivity.
  - discriminate.
  - intros g [_ Hg]%elem_of_columns. apply list_elem_of_singleton in Hg as ->.
    intros Heq. compute_lhs Heq. discriminate.
  - reflexivity.
  - destruct (accounts Accounts.label_for_field) as [chunks st] eqn:Hc.
    pose proof (Hdoc chunks st eq_refl) as Hline.
    compute_lhs Hc. injection Hc as <- <-.
    destruct Hline as (rows & row & b & Hrows & Hrow & _ & Hb & Henc);
      [simpl; lia|].
    apply Forall2_nil_inv_l in Hrows as ->.
    compute_lhs Hrow. injection Hrow as <-.
    compute_lhs Henc. injection Henc as <-.
    do 3 eexists. split; [reflexivity|]. split; [reflexivity|].
    split; [exact Hb|reflexivity].
Defined.

(** C8, refuted on columns that carry the same label: the name of the
    account is a string with tags, the view strips them, and the line of
    the account in the document reads [10,10,10]; the name is not in it,
    with or without its tags. *)
Lemma stripped_name_is_overwritten :
  exists c1 c2,
    accounts Accounts.same_label = ([PyBytes c1; PyBytes c2], Exhausted)
    /\ Accounts.lookup_field (Named "name") Accounts.bold
       = Found (VText (ustr "<b>B</b>"))
    /\ get_value Accounts.lookup_field Accounts.strip_tags (Named "name")
         Accounts.bold = Ok (VText (ustr "B"))
    /\ utf_8.encode (ustr "Name,Name,Name" ++ [CR; LF]
                     ++ ustr "5,5,5" ++ [CR; LF]) = Ok c1
    /\ utf_8.encode (repeat NUL 23 ++ ustr "10,10,10" ++ [CR; LF]) = Ok c2.
Proof.
  do 2 eexists. split; [reflexivity|]. split; [reflexivity|].
  split; [reflexivity|]. split; reflexivity.
Qed.

(** C8 on the account whose name carries tags, with distinct labels: the
    second chunk of the export is the line [B,x,10] behind the NUL
    characters. *)
Lemma strings_are_stripped_before_the_writer_witness :
  exists chunks st b,
    accounts Accounts.label_for_field = (chunks, st)
    /\ Accounts.lookup_field (Named "name") Accounts.bold
       = Found (VText (ustr "<b>B</b>"))
    /\ chunks !! 1%nat = Some (PyBytes b)
    /\ utf_8.encode (repeat NUL 29 ++ ustr "B,x,10" ++ [CR; LF]) = Ok b.
Proof.
  destruct (strings_are_stripped_before_the_writer Accounts.label_for_field
              Accounts.lookup_field Accounts.strip_tags Accounts.cl
              Accounts.comma 44 [Accounts.orphan] Accounts.bold [])
    as (_ & _ & Hfield); [reflexivity|reflexivity|].
  destruct (Hfield [action_checkbox] (Named "name")
              [Named "owner"; Named "amount"] (ustr "<b>B</b>"))
    as (_ & _ & Hdoc).
  - reflexivity.
  - discriminate.
  - intros g [_ Hg]%elem_of_columns.
    repeat (apply elem_of_cons in Hg as [->|Hg]);
      try (intros Heq; compute_lhs Heq; discriminate).
    by apply elem_of_nil in Hg.
  - reflexivity.
  - destruct (accounts Accounts.label_for_field) as [chunks st] eqn:Hc.
    pose proof (Hdoc chunks st eq_refl) as Hline.
    compute_lhs Hc. injection Hc as <- <-.
    destruct Hline as (rows & row & b & Hrows & Hrow & _ & Hb & Henc);
      [simpl; lia|].
    apply Forall2_cons_inv_l in Hrows as (r & rows' & Hr & Hrows & ->).
    apply Forall2_nil_inv_l in Hrows as ->.
    compute_lhs Hr. injection Hr as <-.
    compute_lhs Hrow. injection Hrow as <-.
    compute_lhs Henc. injection Henc as <-.
    do 3 eexists. split; [reflexivity|]. split; [reflexivity|].
    split; [exact Hb|reflexivity].
Defined.

End RecordLineWitnesses.

(** ** Buttons and URL patterns *)

Section UrlFacts.
Import ExportableAdmin.
Variable lower : text -> text.
Variable reverse : text -> result text.
Variable iri_to_uri : text -> text.
Variable meta : Options.
Variable export_formats : list (text * text).
Variable super_get_urls : list url.

#[local] Abbreviation the_urls := (get_urls lower meta export_formats super_get_urls).
#[local] Abbreviation the_buttons := (get_export_buttons meta export_formats).
#[local] Abbreviation pattern_name app mod_ format :=
  (app ++ ustr "_" ++ mod_ ++ ustr "_export_" ++ lower (fst format)).

Lemma get_urls_unfold :
  the_urls =
    match model_name meta with
    | Some mod_ =>
        Ok (map (fun format : text * text =>
                   mkUrl (ustr "^export/" ++ lower (fst format) ++ ustr "$")
                         export_changelist
                         (Some (pattern_name (app_label meta) mod_ format))
                         {[ "extra_context"%string :=
                              {[ "export_delimiter"%string := snd format ]} ]})
                export_formats ++ super_get_urls)
    | None => Raise (OtherError "AttributeError")
    end.
Proof.
  unfold get_urls. destruct (model_name meta) as [mod_|]; simpl; [|done].
  do 2 f_equal. apply map_ext. by intros [format_name d].
Qed.

Lemma get_export_buttons_unfold META :
  the_buttons META =
    match module_name meta, model_name meta with
    | Some mod_, _ | None, Some mod_ =>
        Ok (mkButtons (app_label meta) mod_ META export_formats)
    | None, None => Raise (OtherError "AttributeError")
    end.
Proof.
  unfold get_export_buttons.
  destruct (module_name meta) as [m|], (model_name meta) as [m'|]; done.
Qed.

Lemma pull_S {A G : Type} (step_of : G -> step A G) (n : nat) (g : G) :
  pull step_of (S n) g =
    match step_of g with
    | Yield a g' => let '(rest, st) := pull step_of n g' in (a :: rest, st)
    | StopIteration => ([], Exhausted)
    | Raised e => ([], Failed e)
    end.
Proof. done. Qed.

(** The buttons of the formats still to come, when their URLs resolve. *)
Lemma pull_buttons app mod_ META (formats : list (text * text)) :
  forall links : list text,
  Forall2 (fun format link =>
             reverse (ustr "admin:" ++ pattern_name app mod_ format) = Ok link)
          formats links ->
  pull (next_button lower reverse iri_to_uri) (S (length formats))
       (mkButtons app mod_ META formats)
  = (zip_with (button iri_to_uri META) formats links, Exhausted).
Proof.
  induction formats as [|[format_name d] formats IH]; intros links Hlinks.
  - by apply Forall2_nil_inv_l in Hlinks as ->.
  - apply Forall2_cons_inv_l in Hlinks as (link & links' & Hlink & Hlinks & ->).
    cbn [length]. rewrite pull_S.
    cbn [next_button buttons_formats buttons_app buttons_mod buttons_META].
    cbn [fst] in Hlink. rewrite Hlink.
    rewrite (IH links' Hlinks). cbn [zip_with]. unfold button at 2. cbn [fst].
    by destruct (default [] (META !! "QUERY_STRING"%string)).
Qed.

Lemma delimiter_of_pattern r v nm (d : text) :
  delimiter
    (extra_context_of
       (mkUrl r v nm
          {[ "extra_context"%string := {[ "export_delimiter"%string := d ]} ]}))
  = Some d.
Proof.
  unfold delimiter, extra_context_of. cbn [kwargs].
  rewrite lookup_singleton_eq. cbn [default]. apply lookup_singleton_eq.
Qed.

(** X9. [get_urls] puts one pattern per export format, in the order of
    the formats, in front of the inherited patterns; the pattern of a
    format points to the export view and hands it the delimiter of the
    format as [export_delimiter], which is the delimiter the view then
    reads from its [extra_context]. *)
Theorem export_urls_carry_their_delimiter (urls : list url) :
  the_urls = Ok urls ->
  length urls = (length export_formats + length super_get_urls)%nat
  /\ drop (length export_formats) urls = super_get_urls
  /\ forall i format_name d,
       export_formats !! i = Some (format_name, d) ->
       exists p,
         urls !! i = Some p
         /\ callback p = export_changelist
         /\ regex p = ustr "^export/" ++ lower format_name ++ ustr "$"
         /\ delimiter (extra_context_of p) = Some d
         /\ str_delimiter (extra_context_of p) = d.
Proof.
  rewrite get_urls_unfold. destruct (model_name meta) as [mod_|]; [|done].
  intros [= <-]. split; [by rewrite length_app, length_map|].
  split. { rewrite drop_app_length'; [done|by rewrite length_map]. }
  intros i format_name d Hi. eexists. split.
  { rewrite lookup_app_l by (rewrite length_map; by eapply lookup_lt_Some).
    rewrite list_lookup_fmap, Hi. done. }
  split; [done|]. split; [done|]. cbn [fst snd].
  split; [apply delimiter_of_pattern|].
  unfold str_delimiter. by rewrite delimiter_of_pattern.
Qed.

(** X10. When [_meta] has no [module_name], or one equal to its
    [model_name], the buttons fit the patterns: if every export pattern
    of [get_urls] resolves under its name in the [admin] namespace, the
    buttons are one per format, in the order of the formats, each with the
    text [Export as] and the name of the format and with the resolved path
    of the format's own pattern as its link, followed by [?] and the query
    string of the request when there is one. *)
Theorem buttons_link_to_the_export_urls (META : gmap string text)
    (urls : list url) (g : buttons) (links : list text) :
  module_name meta = None \/ module_name meta = model_name meta ->
  the_urls = Ok urls ->
  the_buttons META = Ok g ->
  Forall2 (fun p link =>
             exists viewname,
               name p = Some viewname
               /\ reverse (ustr "admin:" ++ viewname) = Ok link)
          (take (length export_formats) urls) links ->
  pull (next_button lower reverse iri_to_uri) (S (length export_formats)) g
  = (zip_with (button iri_to_uri META) export_formats links, Exhausted).
Proof.
  intros Hmod. rewrite get_urls_unfold, get_export_buttons_unfold.
  destruct (model_name meta) as [mod_|] eqn:Hmodel; [|done].
  intros [= <-] Hg Hlinks.
  assert (g = mkButtons (app_label meta) mod_ META export_formats) as ->.
  { destruct Hmod as [Hm|Hm]; rewrite Hm in Hg; by injection Hg. }
  apply pull_buttons.
  rewrite take_app_length' in Hlinks by by rewrite length_map.
  apply Forall2_fmap_l in Hlinks.
  eapply Forall2_impl; [exact Hlinks|].
  intros format link (viewname & [= <-] & Hrev). exact Hrev.
Qed.

(** X11. [get_urls] needs [model_name]: without it the method raises
    [AttributeError] even when [_meta] has a [module_name], because its
    fallback reads the same attribute again; [get_export_buttons] takes
    [module_name] when there is one and falls back to [model_name], so it
    raises only when both are missing. *)
Theorem get_urls_needs_model_name (META : gmap string text) :
  (model_name meta = None -> the_urls = Raise (OtherError "AttributeError"))
  /\ (forall mod_, model_name meta = Some mod_ -> exists urls, the_urls = Ok urls)
  /\ (forall mod_, module_name meta = Some mod_ ->
        the_buttons META = Ok (mkButtons (app_label meta) mod_ META export_formats))
  /\ (forall mod_, module_name meta = None -> model_name meta = Some mod_ ->
        the_buttons META = Ok (mkButtons (app_label meta) mod_ META export_formats))
  /\ (module_name meta = None -> model_name meta = None ->
        the_buttons META = Raise (OtherError "AttributeError")).
Proof.
  rewrite get_urls_unfold, get_export_buttons_unfold.
  repeat split.
  - by intros ->.
  - intros mod_ ->. eauto.
  - by intros mod_ ->.
  - by intros mod_ -> ->.
  - by intros -> ->.
Qed.

End UrlFacts.

Section UrlWitnesses.
Import ExportableAdmin.

#[local] Abbreviation o_1 := ({[ "QUERY_STRING"%string := ustr "o=1" ]} : gmap string text).

Lemma export_urls_carry_their_delimiter_witness :
  exists urls p,
    get_urls ascii_lower meta_new ExportableAdmin_export_formats inherited_urls
    = Ok urls
    /\ urls !! 1%nat = Some p
    /\ regex p = ustr "^export/tab delimited$"
    /\ str_delimiter (extra_context_of p) = [9]
    /\ drop 2 urls = inherited_urls.
Proof.
  edestruct (export_urls_carry_their_delimiter ascii_lower meta_new
               ExportableAdmin_export_formats inherited_urls)
    as (_ & Hdrop & Hat); [reflexivity|].
  destruct (Hat 1%nat (ustr "Tab Delimited") [9] eq_refl)
    as (p & Hp & _ & Hregex & _ & Hstr).
  eexists. exists p. split; [reflexivity|].
  split; [exact Hp|]. split; [exact Hregex|]. split; [exact Hstr|exact Hdrop].
Defined.

Lemma buttons_link_to_the_export_urls_witness :
  exists g,
    get_export_buttons meta_new ExportableAdmin_export_formats o_1 = Ok g
    /\ pull (next_button ascii_lower reverse_any (fun iri => iri)) 3 g
       = ([(ustr "Export as CSV", ustr "/admin:bank_account_export_csv/?o=1");
           (ustr "Export as Tab Delimited",
            ustr "/admin:bank_account_export_tab delimited/?o=1")],
          Exhausted).
Proof.
  eexists. split; [reflexivity|].
  etransitivity.
  - eapply (buttons_link_to_the_export_urls ascii_lower reverse_any
              (fun iri => iri) meta_new ExportableAdmin_export_formats
              inherited_urls o_1).
    + by left.
    + reflexivity.
    + reflexivity.
    + cbn [take length ExportableAdmin_export_formats app map].
      repeat (constructor; [eexists; split; reflexivity|]). constructor.
  - reflexivity.
Defined.

Lemma get_urls_needs_model_name_witness :
  get_urls ascii_lower meta_old ExportableAdmin_export_formats inherited_urls
  = Raise (OtherError "AttributeError")
  /\ get_export_buttons meta_old ExportableAdmin_export_formats o_1
     = Ok (mkButtons (ustr "bank") (ustr "account") o_1
             ExportableAdmin_export_formats).
Proof.
  destruct (get_urls_needs_model_name ascii_lower meta_old
              ExportableAdmin_export_formats inherited_urls o_1)
    as (Hurls & _ & Hbuttons & _).
  split; [by apply Hurls|by apply Hbuttons].
Defined.

End UrlWitnesses.

(** ** Columns named twice, labels carried twice *)

Section RepeatedEntries.
Import ExportableAdmin.
Context {record : Type}.
Variable label_for_field : column -> text.
Variable cl : ChangeList record.

#[local] Abbreviation entry :=
  (fun field_name : column => (field_name, label_for_field field_name)).
#[local] Abbreviation see :=
  (fun (seen : list column) k => if decide (k ∈ seen) then seen else seen ++ [k]).

Lemma setitem_entry (ks : list column) a :
  OrderedDict.setitem (map entry ks) a (label_for_field a) = map entry (see ks a).
Proof.
  induction ks as [|k ks IH]; cbn [map OrderedDict.setitem].
  - destruct (decide (a ∈ [])) as [Hin|_]; [by apply elem_of_nil in Hin|done].
  - destruct (decide (k = a)) as [->|Hne].
    + rewrite decide_True by apply list_elem_of_here. done.
    + rewrite IH. destruct (decide (a ∈ ks)) as [Hin|Hnotin].
      * rewrite decide_True by by apply list_elem_of_further. done.
      * rewrite decide_False; [done|].
        intros [?|?]%elem_of_cons; congruence.
Qed.

Lemma get_headers_entries (l : list column) : forall ks : list column,
  get_headers label_for_field (map entry ks) l
  = map entry (foldl see ks (columns l)).
Proof.
  induction l as [|a l IH]; intros ks; cbn [get_headers]; [done|].
  rewrite columns_cons. case_decide; [apply IH|].
  rewrite setitem_entry, IH. done.
Qed.

Lemma foldl_see_spec (l : list column) : forall ks : list column,
  NoDup ks ->
  NoDup (foldl see ks l)
  /\ forall k, k ∈ foldl see ks l <-> k ∈ ks \/ k ∈ l.
Proof.
  induction l as [|a l IH]; intros ks Hnd; simpl.
  - split; [done|]. intros k. rewrite elem_of_nil. tauto.
  - destruct (decide (a ∈ ks)) as [Hin|Hnotin].
    + destruct (IH ks Hnd) as [Hnd' Hiff]. split; [done|].
      intros k. rewrite Hiff, elem_of_cons.
      split; [tauto|]. intros [?|[->|?]]; auto.
    + destruct (IH (ks ++ [a])) as [Hnd' Hiff].
      { apply NoDup_app. split; [done|]. split; [|apply NoDup_singleton].
        intros x Hx ->%list_elem_of_singleton. done. }
      split; [done|]. intros k.
      rewrite Hiff, elem_of_app, list_elem_of_singleton, elem_of_cons. tauto.
Qed.

(** X12. The header of an export, whatever [list_display] is: the labels
    of its entries other than [action_checkbox], each entry once, at the
    place of its first occurrence. An entry named twice gives one column. *)
Theorem header_has_each_column_once :
  let cols := first_seen (columns (list_display cl)) in
  OrderedDict.values (res_headers label_for_field cl) = map label_for_field cols
  /\ NoDup cols
  /\ (forall field_name,
        field_name ∈ cols <->
        field_name <> action_checkbox /\ field_name ∈ list_display cl).
Proof.
  intros cols. subst cols. unfold first_seen.
  destruct (foldl_see_spec (columns (list_display cl)) [] (NoDup_nil_2))
    as [Hnd Hiff].
  split; [|split; [done|]].
  - unfold res_headers, OrderedDict.empty.
    change (@nil (column * text)) with (map entry []).
    rewrite (get_headers_entries (list_display cl) []).
    unfold OrderedDict.values. by rewrite map_map.
  - intros f. rewrite Hiff, elem_of_nil, elem_of_columns. tauto.
Qed.

End RepeatedEntries.

Section RepeatedLabels.
Import ExportableAdmin.
Context {record : Type}.
Variable label_for_field : column -> text.
Variable lookup_field : column -> record -> lookup.
Variable strip_tags : text -> text.
Variable cl : ChangeList record.

(** What is under a label after the columns have been put into the row. *)
Lemma put_lookup_last_under obj (l : list column) :
  forall (row0 : gmap text value) key,
  foldl (fun row field_name =>
           <[label_for_field field_name :=
               exported lookup_field strip_tags field_name obj]> row) row0 l
    !! key
  = match last_under label_for_field key l with
    | Some g => Some (exported lookup_field strip_tags g obj)
    | None => row0 !! key
    end.
Proof.
  unfold last_under.
  induction l as [|a l IH] using rev_ind; intros row0 key; [done|].
  rewrite foldl_app, filter_app. simpl. rewrite filter_cons, filter_nil.
  destruct (decide (label_for_field a = key)) as [<-|Hne].
  - rewrite last_snoc. apply lookup_insert_eq.
  - rewrite app_nil_r, lookup_insert_ne by done. apply IH.
Qed.

(** X13. The cells of a record, whatever the labels are: under the label
    of an exported column stands the exported value of the last column of
    [list_display] that carries this label. A column whose label a later
    column carries too shows the value of the later one. *)
Theorem last_column_under_a_label_wins (obj : record) (row : gmap text value)
    (field_name : column) :
  get_row label_for_field lookup_field strip_tags cl (list_display cl) obj ∅
  = Ok row ->
  field_name ∈ columns (list_display cl) ->
  exists g,
    last_under label_for_field (label_for_field field_name)
      (columns (list_display cl)) = Some g
    /\ g ∈ columns (list_display cl)
    /\ label_for_field g = label_for_field field_name
    /\ row !! label_for_field field_name
       = Some (exported lookup_field strip_tags g obj).
Proof.
  intros Hrow Hin. apply row_of_inv in Hrow as [-> _].
  unfold export_row. rewrite put_lookup_last_under.
  destruct (last_under label_for_field (label_for_field field_name)
              (columns (list_display cl))) as [g|] eqn:Hlast.
  - exists g. split; [done|]. unfold last_under in Hlast.
    apply last_Some_elem_of in Hlast.
    apply (list_elem_of_filter
             (fun f => label_for_field f = label_for_field field_name)) in Hlast
      as [Hlabel Hg].
    done.
  - exfalso. unfold last_under in Hlast. apply last_None in Hlast.
    eapply (filter_nil_not_elem_of
              (fun f => label_for_field f = label_for_field field_name));
      [exact Hlast| |exact Hin]. done.
Qed.

End RepeatedLabels.

Section RepeatedColumnsWitnesses.
Import ExportableAdmin.

Lemma last_column_under_a_label_wins_witness :
  exists row,
    get_row Accounts.same_label Accounts.lookup_field Accounts.strip_tags
      Accounts.cl Accounts.list_display Accounts.orphan ∅ = Ok row
    /\ row !! Accounts.same_label (Named "name")
       = Some (exported Accounts.lookup_field Accounts.strip_tags
                 (Named "amount") Accounts.orphan).
Proof.
  edestruct (last_column_under_a_label_wins Accounts.same_label
               Accounts.lookup_field Accounts.strip_tags Accounts.cl
               Accounts.orphan
               (export_row Accounts.same_label Accounts.lookup_field
                  Accounts.strip_tags Accounts.list_display Accounts.orphan)
               (Named "name")) as (g & Hlast & _ & _ & Hrow).
  - reflexivity.
  - apply (bool_decide_unpack _). vm_compute. exact I.
  - compute_lhs Hlast. injection Hlast as <-.
    eexists. split; [reflexivity|exact Hrow].
Defined.

End RepeatedColumnsWitnesses.

Lemma header_has_each_column_once_witness :
  OrderedDict.values (ExportableAdmin.res_headers Accounts.label_for_field cl_twice)
  = [ustr "Amount"; ustr "Name"].
Proof.
  etransitivity.
  - apply (proj1 (header_has_each_column_once Accounts.label_for_field cl_twice)).
  - reflexivity.
Defined.

(** ** The formats of the admin classes *)

Section ShippedFormats.
Import ExportableAdmin.

(** X14. For the export formats of the four admin classes, every pattern
    [get_urls] registers for a format hands the view a delimiter of one
    character (a comma, a tab or a bar), so the view constructs its writer
    with this delimiter: an export reached through these patterns does not
    break on its delimiter. *)
Theorem shipped_formats_construct_the_writer (lower : text -> text)
    (meta : Options) (super_get_urls : list url)
    (export_formats : list (text * text)) (urls : list url)
    (i : nat) (p : url) (names : list text) :
  export_formats ∈ [ExportableAdmin_export_formats;
                    CSVExportableAdmin_export_formats;
                    PipeExportableAdmin_export_formats;
                    MultiExportableAdmin_export_formats] ->
  get_urls lower meta export_formats super_get_urls = Ok urls ->
  (i < length export_formats)%nat ->
  urls !! i = Some p ->
  exists c,
    c ∈ [44; 9; 124]
    /\ delimiter (extra_context_of p) = Some [c]
    /\ UnicodeWriter.__init__ utf_8.codec Echo tt names
         (str_delimiter (extra_context_of p))
       = Ok (UnicodeWriter.mk utf_8.codec Echo
               (StringIO.mk (csv.record c names) (length (csv.record c names)))
               (csv.mkDictWriter names c) tt tt).
Proof.
  intros Hformats Hurls Hi Hp.
  destruct (export_urls_carry_their_delimiter lower meta export_formats
              super_get_urls urls Hurls) as (_ & _ & Hat).
  destruct (lookup_lt_is_Some_2 export_formats i Hi) as [[format_name d] Hformat].
  destruct (Hat i format_name d Hformat) as (p' & Hp' & _ & _ & Hd & Hstr).
  assert (p' = p) as -> by congruence.
  assert (Hc : exists c, c ∈ [44; 9; 124] /\ d = [c]).
  { repeat (apply elem_of_cons in Hformats as [->|Hformats]);
      [ | | | |by apply elem_of_nil in Hformats].
    all: repeat (destruct i as [|i]; [injection Hformat as <- <-|]);
      try (simpl in Hi; lia).
    all: eexists; split; [|reflexivity].
    all: apply (bool_decide_unpack _); vm_compute; exact I. }
  destruct Hc as (c & Hc & ->). exists c. split; [done|]. split; [done|].
  rewrite Hstr.
  exact (UnicodeWriterFacts.init_unfold (codec:=utf_8.codec) (f:=Echo) tt names c).
Qed.

Lemma shipped_formats_construct_the_writer_witness :
  exists urls p,
    get_urls ascii_lower meta_new MultiExportableAdmin_export_formats
      inherited_urls = Ok urls
    /\ urls !! 1%nat = Some p
    /\ delimiter (extra_context_of p) = Some [124].
Proof.
  destruct (get_urls ascii_lower meta_new MultiExportableAdmin_export_formats
              inherited_urls) as [urls|e] eqn:Hurls;
    [|compute_lhs Hurls; discriminate Hurls].
  destruct (urls !! 1%nat) as [p|] eqn:Hp.
  2: { compute_lhs Hurls. injection Hurls as <-. discriminate Hp. }
  destruct (shipped_formats_construct_the_writer ascii_lower meta_new
              inherited_urls MultiExportableAdmin_export_formats urls 1%nat p [])
    as (c & _ & Hd & _).
  - apply (bool_decide_unpack _). vm_compute. exact I.
  - exact Hurls.
  - simpl. lia.
  - exact Hp.
  - exists urls, p. split; [done|]. split; [done|].
    compute_lhs Hurls. injection Hurls as <-. injection Hp as <-.
    rewrite Hd. compute_lhs Hd. by injection Hd as <-.
Defined.

End ShippedFormats.
